(** * Meeting-transcription pipeline: stage orchestration and data contract

    A shallow embedding of the four pipeline stages of the repository
    (diarization, recognition, correction, summarization) and of the driver
    that chains them, together with the properties of the inter-stage
    contract.

    Conventions of the embedding:
    - a Python [str] is a list of code points ([list N]); [len] is [length];
    - a Python float that holds a time in seconds or a ratio is a rational
      ([Q]) and the arithmetic on it is exact; there is no NaN;
    - a pandas DataFrame is the list of its rows, each row a record whose
      columns hold values of their type (no missing value);
    - the file system is a finite map from paths to file contents; a CSV
      file holds the table that was written to it;
    - a stage is a function of the file system that returns a value or
      raises, together with the file system it leaves;
    - the pretrained models and the slicing of the audio library are opaque
      operations; a model call may raise, and is given the number of the
      call, so that two calls on the same input may differ. *)

From Stdlib Require Import QArith Qround.
From Stdlib Require Import DecimalString.
From stdpp Require Import strings gmap list sorting fin_maps.

Local Open Scope Z_scope.

(** ** Python strings *)

Module PyStr.

Abbreviation char := N (only parsing).
Abbreviation str := (list N) (only parsing).

(** A literal of the source, as code points. *)
Definition py (s : string) : str :=
  map Ascii.N_of_ascii (String.list_ascii_of_string s).

Definition len (s : str) : nat := length s.

(** [str.isspace] on one character: the code points CPython's
    [Py_UNICODE_ISSPACE] accepts. *)
Definition isspace (c : char) : bool :=
  ((9 <=? c) && (c <=? 13) || (28 <=? c) && (c <=? 32)
   || (c =? 133) || (c =? 160) || (c =? 5760)
   || (8192 <=? c) && (c <=? 8202)
   || (c =? 8232) || (c =? 8233) || (c =? 8239) || (c =? 8287)
   || (c =? 12288))%N.

Fixpoint lstrip (s : str) : str :=
  match s with
  | [] => []
  | c :: s' => if isspace c then lstrip s' else s
  end.

Definition rstrip (s : str) : str := rev (lstrip (rev s)).

(** [s.strip()] *)
Definition strip (s : str) : str := rstrip (lstrip s).

(** [s.split()]: the maximal runs of non-whitespace characters.  [w] is the
    word being read, in reverse. *)
Fixpoint split_from (w : str) (s : str) : list str :=
  match s with
  | [] => match w with [] => [] | _ => [rev w] end
  | c :: s' =>
      if isspace c
      then match w with
           | [] => split_from [] s'
           | _ => rev w :: split_from [] s'
           end
      else split_from (c :: w) s'
  end.

Definition split (s : str) : list str := split_from [] s.

(** [sep.join(parts)] *)
Fixpoint join (sep : str) (parts : list str) : str :=
  match parts with
  | [] => []
  | [p] => p
  | p :: ps => p ++ sep ++ join sep ps
  end.

(** [s[:n]] for a non-negative [n] *)
Definition prefix (n : nat) (s : str) : str := take n s.

(** Comparison of strings as Python compares them: lexicographic on code
    points. *)
Fixpoint str_leb (a b : str) : bool :=
  match a, b with
  | [], _ => true
  | _ :: _, [] => false
  | x :: a', y :: b' =>
      if (x <? y)%N then true
      else if (y <? x)%N then false
      else str_leb a' b'
  end.

Definition str_le (a b : str) : Prop := str_leb a b = true.

#[export] Instance str_le_dec : RelDecision str_le :=
  fun a b => decide (str_leb a b = true).

(** [str(n)] for a non-negative integer: its decimal digits. *)
Definition str_of_nat (n : nat) : str :=
  py (NilZero.string_of_uint (Nat.to_uint n)).

(** The number of words of a string, counted as the spec words it: the
    positions at which a non-whitespace character follows the start of the
    string or a whitespace character.  [prev_space] tells whether the
    previous character was whitespace (or there was none). *)
Fixpoint count_word_starts (prev_space : bool) (s : str) : nat :=
  match s with
  | [] => 0
  | c :: s' =>
      if isspace c then count_word_starts true s'
      else (if prev_space then 1 else 0)%nat + count_word_starts false s'
  end.

End PyStr.

Import PyStr.

(** ** Configuration ([utils/config.py]) *)

Module ModelConfig.

(** seconds *)
Definition MIN_SEGMENT_DURATION : Q := 1 # 2.

(** characters *)
Definition MAX_SUMMARY_INPUT_LENGTH : nat := 2000.

End ModelConfig.

(** ** Numbers *)

(** [int(x)] of a float: truncation toward zero. *)
Definition int_of (x : Q) : Z := Z.quot (Qnum x) (Z.pos (Qden x)).

(** [a / b] on two lengths (true division). *)
Definition true_div (a b : nat) : Q :=
  (inject_Z (Z.of_nat a) / inject_Z (Z.of_nat b))%Q.

(** [sum(xs)] over floats *)
Definition Qsum (xs : list Q) : Q := foldl Qplus 0%Q xs.

(** [series.max()] over a column of floats; the column of a table with
    rows is not empty. *)
Definition Qmax_list (xs : list Q) : Q :=
  match xs with
  | [] => 0%Q
  | x :: rest => foldl (fun m y => if Qle_bool m y then y else m) x rest
  end.

(** ** Audio ([pydub.AudioSegment]) *)

Record AudioSegment := mkAudio {
  frame_rate : positive;     (* frames per second *)
  frames : list Z            (* the frames, in order *)
}.

(** The frames of [a] from second [s] (included) to second [e] (excluded):
    the exact sample range [[s, e)] of the specification.  Frame [i] starts
    at second [i / frame_rate]. *)
Definition sample_range (a : AudioSegment) (s e : Q) : list Z :=
  let first := Z.to_nat (Qfloor (s * inject_Z (Z.pos (frame_rate a)))) in
  let last := Z.to_nat (Qfloor (e * inject_Z (Z.pos (frame_rate a)))) in
  drop first (take last (frames a)).

(** ** Tables *)

(** One track of the diarization model's output
    ([itertracks(yield_label=True)]). *)
Record Turn := mkTurn {
  turn_start : Q;
  turn_end : Q;
  turn_speaker : str
}.

(** Row of the diarization table. *)
Record DiarizationRow := mkDiarizationRow {
  d_speaker : str;
  d_start_time : Q;
  d_end_time : Q;
  d_duration : Q
}.

(** Element of the list [extract_audio_segments] returns. *)
Record Segment := mkSegment {
  seg_speaker : str;
  seg_start_time : Q;
  seg_end_time : Q;
  seg_duration : Q;
  seg_audio_segment : AudioSegment;
  seg_segment_index : nat
}.

(** Row of the recognition table. *)
Record AsrRow := mkAsrRow {
  a_speaker : str;
  a_start_time : Q;
  a_end_time : Q;
  a_duration : Q;
  a_text : str;
  a_word_count : nat
}.

(** Row of the correction table: the recognition columns and
    [corrected_text]. *)
Record CorrectionRow := mkCorrectionRow {
  c_row : AsrRow;
  c_corrected_text : str
}.

(** Row of the summarization table. *)
Record SummaryRow := mkSummaryRow {
  s_speaker : str;
  s_original_text_length : nat;
  s_summary_length : nat;
  s_compression_ratio : Q;
  s_summary : str
}.

(** ** Stage metrics

    [execution_time] and the average processing times are wall-clock
    measurements and are left out. *)

Record DiarizationMetrics := mkDiarizationMetrics {
  dm_segments_count : nat;
  dm_speakers_count : nat;
  dm_audio_duration : Q
}.

Record AsrMetrics := mkAsrMetrics {
  am_segments_processed : nat;
  am_segments_with_speech : nat;
  am_success_rate : Q;
  am_total_words : nat;
  am_speakers_count : nat
}.

Record CorrectionMetrics := mkCorrectionMetrics {
  cm_segments_count : nat;
  cm_successful_corrections : nat;
  cm_success_rate : Q;
  cm_total_characters_processed : nat
}.

Record SummarizationMetrics := mkSummarizationMetrics {
  sm_speakers_count : nat;
  sm_successful_summaries : nat;
  sm_success_rate : Q;
  sm_avg_compression_ratio : Q;
  sm_total_characters_processed : nat
}.

(** The dictionaries the stages return, by shape. *)
Inductive metrics :=
| MDiarization (m : DiarizationMetrics)
| MDiarizationEmpty                   (* [{"segments_count": 0}] *)
| MAsr (m : AsrMetrics)
| MAsrEmpty (segments_processed : nat)
| MCorrection (m : CorrectionMetrics)
| MSummarization (m : SummarizationMetrics).

(** ** Files, exceptions and the stage monad *)

Inductive file :=
| AudioFile (a : AudioSegment)
| PartialFile                         (* what a failed export left behind *)
| DiarizationCsv (rows : list DiarizationRow)
| AsrCsv (rows : list AsrRow)
| CorrectionCsv (rows : list CorrectionRow)
| SummaryCsv (rows : list SummaryRow)
| MinutesTxt (blocks : list (str * str))
| MetricsJson (report : gmap str metrics).

Inductive exn :=
| FileNotFoundError
| CouldntDecodeError
| KeyError
| ValueError
| ModelError (code : nat).

Inductive result (A : Type) :=
| Ok (a : A)
| Raise (e : exn).
Arguments Ok {A} a.
Arguments Raise {A} e.

(** A computation on the file system that returns or raises. *)
Definition M (A : Type) : Type := gmap str file -> result A * gmap str file.

Definition ret {A} (a : A) : M A := fun fs => (Ok a, fs).

Definition raise {A} (e : exn) : M A := fun fs => (Raise e, fs).

Definition bind {A B} (k : A -> M B) (m : M A) : M B :=
  fun fs =>
    match m fs with
    | (Ok a, fs') => k a fs'
    | (Raise e, fs') => (Raise e, fs')
    end.

#[export] Instance M_ret : MRet M := @ret.
#[export] Instance M_bind : MBind M := @bind.

(** A model call: it returns or raises and leaves the files alone. *)
Definition call {A} (r : result A) : M A := fun fs => (r, fs).

(** [try: body  except Exception: handler] *)
Definition try_except {A} (body : M A) (handler : exn -> M A) : M A :=
  fun fs =>
    match body fs with
    | (Ok a, fs') => (Ok a, fs')
    | (Raise e, fs') => handler e fs'
    end.

(** [try: ... except ...: ...  finally: finalizer]: the finalizer runs
    whatever the outcome, and an exception of its own replaces it. *)
Definition try_finally {A} (body : M A) (finalizer : M unit) : M A :=
  fun fs =>
    match body fs with
    | (r, fs') =>
        match finalizer fs' with
        | (Ok _, fs'') => (r, fs'')
        | (Raise e, fs'') => (Raise e, fs'')
        end
    end.

(** [os.path.exists(path)] *)
Definition path_exists (path : str) : M bool :=
  fun fs => (Ok (bool_decide (is_Some (fs !! path))), fs).

(** [os.remove(path)] *)
Definition remove (path : str) : M unit :=
  fun fs =>
    match fs !! path with
    | Some _ => (Ok tt, delete path fs)
    | None => (Raise FileNotFoundError, fs)
    end.

(** Writing a file creates or replaces it. *)
Definition write_file (path : str) (f : file) : M unit :=
  fun fs => (Ok tt, <[path := f]> fs).

(** [AudioSegment.from_file(path)] *)
Definition from_file (path : str) : M AudioSegment :=
  fun fs =>
    match fs !! path with
    | Some (AudioFile a) => (Ok a, fs)
    | Some _ => (Raise CouldntDecodeError, fs)
    | None => (Raise FileNotFoundError, fs)
    end.

(** [pd.read_csv(path)], by the columns the caller goes on to use: a table
    without them raises [KeyError] at the first access. *)
Definition read_diarization_csv (path : str) : M (list DiarizationRow) :=
  fun fs =>
    match fs !! path with
    | Some (DiarizationCsv rows) => (Ok rows, fs)
    | Some _ => (Raise KeyError, fs)
    | None => (Raise FileNotFoundError, fs)
    end.

Definition read_asr_csv (path : str) : M (list AsrRow) :=
  fun fs =>
    match fs !! path with
    | Some (AsrCsv rows) => (Ok rows, fs)
    | Some _ => (Raise KeyError, fs)
    | None => (Raise FileNotFoundError, fs)
    end.

Definition read_correction_csv (path : str) : M (list CorrectionRow) :=
  fun fs =>
    match fs !! path with
    | Some (CorrectionCsv rows) => (Ok rows, fs)
    | Some _ => (Raise KeyError, fs)
    | None => (Raise FileNotFoundError, fs)
    end.

Definition read_summary_csv (path : str) : M (list SummaryRow) :=
  fun fs =>
    match fs !! path with
    | Some (SummaryCsv rows) => (Ok rows, fs)
    | Some _ => (Raise KeyError, fs)
    | None => (Raise FileNotFoundError, fs)
    end.

(** ** pandas operations *)

(** [df.sort_values(key)]: ascending order of a float column. *)
Definition key_le {A} (key : A -> Q) (x y : A) : Prop :=
  Qle_bool (key x) (key y) = true.

#[export] Instance key_le_dec {A} (key : A -> Q) : RelDecision (key_le key) :=
  fun x y => decide (Qle_bool (key x) (key y) = true).

Definition sort_values {A} (key : A -> Q) (df : list A) : list A :=
  merge_sort (key_le key) df.

(** [series.nunique()] *)
Definition nunique (xs : list str) : nat := length (remove_dups xs).

(** [x < y] on floats *)
Definition Qlt_bool (x y : Q) : bool := negb (Qle_bool y x).

(** [df.iterrows()] of a table read from a file: the rows with their
    positions. *)
Definition iterrows {A} (df : list A) : list (nat * A) :=
  zip (seq 0 (length df)) df.

(** [df.groupby("speaker")["corrected_text"]]: the texts of each speaker, in
    row order. *)
Definition groupby_speaker (df : list CorrectionRow) : gmap str (list str) :=
  foldl (fun groups row =>
           <[a_speaker (c_row row) :=
               default [] (groups !! a_speaker (c_row row))
               ++ [c_corrected_text row]]> groups)
        ∅ df.

(** [.apply(" ".join).reset_index()]: one row per group, the groups in
    ascending order of their key. *)
Definition speaker_texts (df : list CorrectionRow) : list (str * str) :=
  let groups := groupby_speaker df in
  (fun k => (k, join (py " ") (default [] (groups !! k))))
    <$> merge_sort str_le (fst <$> map_to_list groups).

(** What exporting a segment to a file can do. *)
Inductive export_result :=
| Exported
| ExportFailed (e : exn) (file_left : bool).

(** ** The stages *)

Section Stages.

(** The pretrained models and the audio library, as opaque operations.  A
    model call is given the number of the call besides its input. *)
Variable diarization_pipeline : AudioSegment -> list Turn.
Variable getitem : AudioSegment -> Z -> Z -> AudioSegment.
Variable export_model : nat -> AudioSegment -> export_result.
Variable asr_pipeline : nat -> AudioSegment -> result str.
Variable correction_model : nat -> str -> result str.
Variable summarization_model : nat -> str -> result str.

(** *** Diarization ([test_diarization.py]) *)

(** The loop over the tracks. *)
Definition diarization_segments (tracks : list Turn) : list DiarizationRow :=
  foldl (fun segments turn =>
           if Qlt_bool (turn_end turn - turn_start turn)
                       ModelConfig.MIN_SEGMENT_DURATION
           then segments
           else segments ++
                [ {| d_speaker := turn_speaker turn;
                     d_start_time := turn_start turn;
                     d_end_time := turn_end turn;
                     d_duration := turn_end turn - turn_start turn |} ])
        [] tracks.

Definition perform_diarization (audio_file_path output_csv_path : str)
  : M (list DiarizationRow * metrics) :=
  audio ← from_file audio_file_path;
  let diarization := diarization_pipeline audio in
  let segments := diarization_segments diarization in
  match segments with
  | _ :: _ =>
      let results_dataframe := sort_values d_start_time segments in
      write_file output_csv_path (DiarizationCsv results_dataframe);;
      mret (results_dataframe,
            MDiarization
              {| dm_segments_count := length results_dataframe;
                 dm_speakers_count := nunique (d_speaker <$> results_dataframe);
                 dm_audio_duration :=
                   Qmax_list (d_end_time <$> results_dataframe) |})
  | [] => mret ([], MDiarizationEmpty)
  end.

(** *** Recognition ([test_asr.py]) *)

Definition extract_audio_segments (audio_file_path : str)
    (diarization_dataframe : list DiarizationRow) : M (list Segment) :=
  audio ← from_file audio_file_path;
  mret (foldl (fun segments '(index, row) =>
                 let start_ms := int_of (d_start_time row * 1000) in
                 let end_ms := int_of (d_end_time row * 1000) in
                 let segment_audio := getitem audio start_ms end_ms in
                 segments ++
                 [ {| seg_speaker := d_speaker row;
                      seg_start_time := d_start_time row;
                      seg_end_time := d_end_time row;
                      seg_duration := d_duration row;
                      seg_audio_segment := segment_audio;
                      seg_segment_index := index |} ])
              [] (iterrows diarization_dataframe)).

(** [f"temp_{segment['speaker']}_{segment['segment_index']}.wav"] *)
Definition temp_file_of (segment : Segment) : str :=
  py "temp_" ++ seg_speaker segment ++ py "_"
  ++ str_of_nat (seg_segment_index segment) ++ py ".wav".

(** [segment["audio_segment"].export(temp_file, format="wav")] *)
Definition export (i : nat) (audio : AudioSegment) (path : str) : M unit :=
  match export_model i audio with
  | Exported => write_file path (AudioFile audio)
  | ExportFailed e true => write_file path PartialFile;; raise e
  | ExportFailed e false => raise e
  end.

(** [asr_pipeline(temp_file)["text"]]: the model reads the file. *)
Definition asr_text (i : nat) (path : str) : M str :=
  audio ← from_file path;
  call (asr_pipeline i audio).

(** The placeholder test of the loop: the text is not empty and is none of
    the empty string, ["."] and ["..."]. *)
Definition has_speech (text : str) : bool :=
  bool_decide (text ≠ [])
  && bool_decide (text ∉ [[]; py "."; py "..."]).

(** The body of the loop of [transcribe_audio_segments], for the segment
    number [i]; it returns the list of results after it. *)
Definition transcribe_segment (i : nat) (segment : Segment)
    (results : list AsrRow) : M (list AsrRow) :=
  let temp_file := temp_file_of segment in
  try_finally
    (try_except
       (export i (seg_audio_segment segment) temp_file;;
        raw ← asr_text i temp_file;
        let text := strip raw in
        if has_speech text
        then mret (results ++
                   [ {| a_speaker := seg_speaker segment;
                        a_start_time := seg_start_time segment;
                        a_end_time := seg_end_time segment;
                        a_duration := seg_duration segment;
                        a_text := text;
                        a_word_count := length (split text) |} ])
        else mret results)
       (fun error => mret results))
    (present ← path_exists temp_file;
     if present : bool then remove temp_file else mret tt).

Fixpoint transcribe_from (i : nat) (segments : list Segment)
    (results : list AsrRow) : M (list AsrRow) :=
  match segments with
  | [] => mret results
  | segment :: rest =>
      results' ← transcribe_segment i segment results;
      transcribe_from (S i) rest results'
  end.

Definition transcribe_audio_segments (segments : list Segment)
  : M (list AsrRow) :=
  transcribe_from 0 segments [].

Definition perform_speech_recognition
    (audio_file_path diarization_csv_path output_csv_path : str)
  : M (list AsrRow * metrics) :=
  diarization_dataframe ← read_diarization_csv diarization_csv_path;
  audio_segments ← extract_audio_segments audio_file_path diarization_dataframe;
  transcription_results ← transcribe_audio_segments audio_segments;
  match transcription_results with
  | _ :: _ =>
      let results_dataframe := sort_values a_start_time transcription_results in
      write_file output_csv_path (AsrCsv results_dataframe);;
      mret (results_dataframe,
            MAsr
              {| am_segments_processed := length audio_segments;
                 am_segments_with_speech := length results_dataframe;
                 am_success_rate :=
                   if (0 <? length audio_segments)%nat
                   then true_div (length results_dataframe)
                                 (length audio_segments)
                   else 0%Q;
                 am_total_words := sum_list (a_word_count <$> results_dataframe);
                 am_speakers_count :=
                   nunique (a_speaker <$> results_dataframe) |})
  | [] => mret ([], MAsrEmpty (length audio_segments))
  end.

(** *** Correction ([test_correction.py]) *)

Definition correct_text (i : nat) (input_text : str) : M (str * bool) :=
  try_except
    (corrected_text ← call (correction_model i input_text);
     mret (corrected_text, true))
    (fun error => mret (input_text, false)).

(** The loop of [test_correction] from text number [i] on, with the list of
    corrected texts and the counter of successes so far. *)
Fixpoint correction_from (i : nat) (texts : list str)
    (corrected_texts : list str) (successful_corrections : nat)
  : M (list str * nat) :=
  match texts with
  | [] => mret (corrected_texts, successful_corrections)
  | text :: rest =>
      '(corrected_text, success_status) ← correct_text i text;
      correction_from (S i) rest
        (corrected_texts ++ [corrected_text])
        (if success_status : bool
         then S successful_corrections else successful_corrections)
  end.

(** [df["corrected_text"] = values]: pandas refuses a column of another
    length. *)
Definition assign_corrected_text (df : list AsrRow) (values : list str)
  : M (list CorrectionRow) :=
  if decide (length values = length df)
  then mret (zip_with mkCorrectionRow df values)
  else raise ValueError.

Definition test_correction (input_csv_path output_csv_path : str)
  : M (list CorrectionRow * metrics) :=
  input_dataframe ← read_asr_csv input_csv_path;
  '(corrected_texts, successful_corrections) ←
    correction_from 0 (a_text <$> input_dataframe) [] 0;
  output_dataframe ← assign_corrected_text input_dataframe corrected_texts;
  write_file output_csv_path (CorrectionCsv output_dataframe);;
  mret (output_dataframe,
        MCorrection
          {| cm_segments_count := length input_dataframe;
             cm_successful_corrections := successful_corrections;
             cm_success_rate :=
               if (0 <? length input_dataframe)%nat
               then true_div successful_corrections (length input_dataframe)
               else 0%Q;
             cm_total_characters_processed :=
               sum_list (len <$> (a_text <$> input_dataframe)) |}).

(** *** Summarization ([test_summarization.py]) *)

(** ["<LM> Сократи текст.\n "], the prefix of the prompt. *)
Definition prompt_prefix : str :=
  py "<LM> " ++ [1057; 1086; 1082; 1088; 1072; 1090; 1080]%N ++ py " "
  ++ [1090; 1077; 1082; 1089; 1090]%N ++ py "." ++ [10]%N ++ py " ".

Definition summarize_text (i : nat) (input_text : str) : M (str * bool) :=
  try_except
    (let prompt_text := prompt_prefix ++ input_text in
     summary ← call (summarization_model i prompt_text);
     mret (strip summary, true))
    (fun error => mret (prefix 200 input_text ++ py "...", false)).

(** The text handed to [summarize_text] for a speaker. *)
Definition processed_text_of (original_text : str) : str :=
  if (ModelConfig.MAX_SUMMARY_INPUT_LENGTH <? len original_text)%nat
  then prefix ModelConfig.MAX_SUMMARY_INPUT_LENGTH original_text ++ py "..."
  else original_text.

(** [len(summary_text) / len(original_text) if len(original_text) > 0 else 0] *)
Definition compression_ratio_of (summary_text original_text : str) : Q :=
  if (0 <? len original_text)%nat
  then true_div (len summary_text) (len original_text)
  else 0%Q.

(** The accumulators of the loop of [test_summarization]. *)
Record summarization_state := mkSummarizationState {
  summaries : list SummaryRow;
  successful_summaries : nat;
  compression_ratios : list Q
}.

(** The loop of [test_summarization] from speaker number [i] on. *)
Fixpoint summarization_from (i : nat) (rows : list (str * str))
    (st : summarization_state) : M summarization_state :=
  match rows with
  | [] => mret st
  | (speaker, original_text) :: rest =>
      let processed_text := processed_text_of original_text in
      '(summary_text, success_status) ← summarize_text i processed_text;
      let compression_ratio :=
        compression_ratio_of summary_text original_text in
      summarization_from (S i) rest
        {| summaries :=
             summaries st ++
             [ {| s_speaker := speaker;
                  s_original_text_length := len original_text;
                  s_summary_length := len summary_text;
                  s_compression_ratio := compression_ratio;
                  s_summary := summary_text |} ];
           successful_summaries :=
             if success_status : bool
             then S (successful_summaries st) else successful_summaries st;
           compression_ratios :=
             compression_ratios st ++ [compression_ratio] |}
  end.

Definition test_summarization (input_csv_path output_csv_path : str)
  : M (list SummaryRow * metrics) :=
  input_dataframe ← read_correction_csv input_csv_path;
  let speaker_texts := speaker_texts input_dataframe in
  st ← summarization_from 0 speaker_texts
         {| summaries := []; successful_summaries := 0;
            compression_ratios := [] |};
  let summary_dataframe := summaries st in
  write_file output_csv_path (SummaryCsv summary_dataframe);;
  mret (summary_dataframe,
        MSummarization
          {| sm_speakers_count := length speaker_texts;
             sm_successful_summaries := successful_summaries st;
             sm_success_rate :=
               if (0 <? length speaker_texts)%nat
               then true_div (successful_summaries st) (length speaker_texts)
               else 0%Q;
             sm_avg_compression_ratio :=
               match compression_ratios st with
               | [] => 0%Q
               | _ =>
                   (Qsum (compression_ratios st)
                    / inject_Z (Z.of_nat (length (compression_ratios st))))%Q
               end;
             sm_total_characters_processed :=
               sum_list (s_original_text_length <$> summaries st) |}).

(** The minutes: after the header, one block per row of the table, in
    table order, with the speaker and the summary. *)
Definition create_meeting_minutes (summary_csv_path output_file_path : str)
  : M unit :=
  summary_dataframe ← read_summary_csv summary_csv_path;
  write_file output_file_path
    (MinutesTxt ((fun row => (s_speaker row, s_summary row))
                   <$> summary_dataframe)).

(** *** The driver ([run_all_tests.py]) *)

(** The metrics hold plain numbers only; the conversion leaves them. *)
Definition convert_metrics_for_json (all_metrics : gmap str metrics)
  : gmap str metrics := all_metrics.

Definition run_complete_pipeline (audio_file_path output_prefix : str)
  : M (gmap str metrics) :=
  let all_metrics : gmap str metrics := ∅ in
  let diarization_output_path := output_prefix ++ py "_diarization.csv" in
  '(diarization_dataframe, diarization_metrics) ←
    perform_diarization audio_file_path diarization_output_path;
  let all_metrics := <[py "diarization" := diarization_metrics]> all_metrics in
  match diarization_dataframe with
  | [] => mret all_metrics
  | _ :: _ =>
      let asr_output_path := output_prefix ++ py "_asr.csv" in
      '(asr_dataframe, asr_metrics) ←
        perform_speech_recognition audio_file_path diarization_output_path
                                   asr_output_path;
      let all_metrics := <[py "asr" := asr_metrics]> all_metrics in
      match asr_dataframe with
      | [] => mret all_metrics
      | _ :: _ =>
          let correction_output_path := output_prefix ++ py "_correction.csv" in
          '(correction_dataframe, correction_metrics) ←
            test_correction asr_output_path correction_output_path;
          let all_metrics :=
            <[py "correction" := correction_metrics]> all_metrics in
          let summarization_output_path :=
            output_prefix ++ py "_summarization.csv" in
          '(summarization_dataframe, summarization_metrics) ←
            test_summarization correction_output_path
                               summarization_output_path;
          let all_metrics :=
            <[py "summarization" := summarization_metrics]> all_metrics in
          let minutes_output_path :=
            output_prefix ++ py "_meeting_minutes.txt" in
          create_meeting_minutes summarization_output_path
                                 minutes_output_path;;
          let metrics_output_path := output_prefix ++ py "_metrics.json" in
          let json_metrics := convert_metrics_for_json all_metrics in
          write_file metrics_output_path (MetricsJson json_metrics);;
          mret all_metrics
      end
  end.

End Stages.

(** ** Specification-side definitions

    What the stages are expected to compute, stated apart from the loops of
    the code. *)

(** A string that is empty or starts with a non-whitespace character. *)
Definition no_lead (s : str) : Prop :=
  match s with
  | [] => True
  | c :: _ => isspace c = false
  end.

(** The diarization row of a track. *)
Definition row_of_turn (turn : Turn) : DiarizationRow :=
  {| d_speaker := turn_speaker turn;
     d_start_time := turn_start turn;
     d_end_time := turn_end turn;
     d_duration := turn_end turn - turn_start turn |}.

(** A track that lasts the minimum duration at least. *)
Definition long_enough (turn : Turn) : Prop :=
  Qle_bool ModelConfig.MIN_SEGMENT_DURATION (turn_end turn - turn_start turn)
  = true.

#[export] Instance long_enough_dec turn : Decision (long_enough turn) :=
  decide (Qle_bool _ _ = true).

(** Ascending order of a table by a float column. *)
Definition ascending {A} (key : A -> Q) (df : list A) : Prop :=
  StronglySorted (fun x y => (key x <= key y)%Q) df.

(** What the claim asks of a retained segment. *)
Definition valid_segment (r : DiarizationRow) : Prop :=
  (d_start_time r < d_end_time r)%Q
  /\ d_duration r = (d_end_time r - d_start_time r)%Q
  /\ (ModelConfig.MIN_SEGMENT_DURATION <= d_duration r)%Q.

(** The files after the temporary files of the segments were removed. *)
Definition without_temp_files (segments : list Segment) (fs : gmap str file)
  : gmap str file :=
  foldl (fun fs segment => delete (temp_file_of segment) fs) fs segments.

(** What the claim asks of a row of the recognition table. *)
Definition valid_asr_row (r : AsrRow) : Prop :=
  a_text r <> []
  /\ (strip (a_text r) ∉ [[]; py "."; py "..."])
  /\ a_word_count r = count_word_starts true (a_text r).

(** How the attempt number [i] on a segment ends. *)
Inductive attempt_outcome :=
| Transcribed      (* a row is added *)
| NoSpeech         (* the model returned an empty or placeholder text *)
| Failed.          (* the export or the model call raised *)

Definition same_outcome (a b : attempt_outcome) : bool :=
  match a, b with
  | Transcribed, Transcribed | NoSpeech, NoSpeech | Failed, Failed => true
  | _, _ => false
  end.

(** The table of the example of the specification: two rows of speaker "A"
    whose corrected texts are "Hi." and "there.". *)
Definition hi_there_table : list CorrectionRow :=
  [ {| c_row := {| a_speaker := py "A"; a_start_time := 0; a_end_time := 1;
                   a_duration := 1; a_text := py "hi"; a_word_count := 1 |};
       c_corrected_text := py "Hi." |};
    {| c_row := {| a_speaker := py "A"; a_start_time := 1; a_end_time := 2;
                   a_duration := 1; a_text := py "there";
                   a_word_count := 1 |};
       c_corrected_text := py "there." |} ].

(** The corrected texts of a speaker, in row order. *)
Definition texts_of (speaker : str) (df : list CorrectionRow) : list str :=
  c_corrected_text <$> filter (fun row => a_speaker (c_row row) = speaker) df.

(** The text of a speaker before summarization, as the spec words it: the
    corrected texts of the speaker, in row order, joined by one space. *)
Definition aggregated_text (speaker : str) (df : list CorrectionRow) : str :=
  join (py " ") (texts_of speaker df).

(** The speakers of a table in the order of the groups. *)
Definition speakers_of (df : list CorrectionRow) : list str :=
  fst <$> speaker_texts df.

(** A path that ends in [".wav"]. *)
Definition ends_in_wav (path : str) : Prop :=
  take 4 (reverse path) = reverse (py ".wav").

(** The suffixes of the files of the stages after diarization, of the
    minutes and of the report. *)
Definition downstream_suffixes : list str :=
  [py "_asr.csv"; py "_correction.csv"; py "_summarization.csv";
   py "_meeting_minutes.txt"; py "_metrics.json"].

Section Outcomes.

Variable getitem : AudioSegment -> Z -> Z -> AudioSegment.
Variable export_model : nat -> AudioSegment -> export_result.
Variable asr_pipeline : nat -> AudioSegment -> result str.
Variable correction_model : nat -> str -> result str.
Variable summarization_model : nat -> str -> result str.

(** The element [extract_audio_segments] makes of a row and its position:
    the audio between the start and the end of the row, each as a whole
    number of milliseconds. *)
Definition segment_of (audio : AudioSegment) (entry : nat * DiarizationRow)
  : Segment :=
  {| seg_speaker := d_speaker entry.2;
     seg_start_time := d_start_time entry.2;
     seg_end_time := d_end_time entry.2;
     seg_duration := d_duration entry.2;
     seg_audio_segment :=
       getitem audio (int_of (d_start_time entry.2 * 1000))
                     (int_of (d_end_time entry.2 * 1000));
     seg_segment_index := entry.1 |}.

(** The row the attempt number [i] on a segment adds to the results, if it
    adds one: the export and the model call must both return, and the
    trimmed text must pass the placeholder test. *)
Definition attempt_row (i : nat) (segment : Segment) : option AsrRow :=
  match export_model i (seg_audio_segment segment) with
  | Exported =>
      match asr_pipeline i (seg_audio_segment segment) with
      | Ok raw =>
          if has_speech (strip raw)
          then Some {| a_speaker := seg_speaker segment;
                       a_start_time := seg_start_time segment;
                       a_end_time := seg_end_time segment;
                       a_duration := seg_duration segment;
                       a_text := strip raw;
                       a_word_count := length (split (strip raw)) |}
          else None
      | Raise _ => None
      end
  | ExportFailed _ _ => None
  end.

Fixpoint attempt_rows (i : nat) (segments : list Segment) : list AsrRow :=
  match segments with
  | [] => []
  | segment :: rest =>
      option_list (attempt_row i segment) ++ attempt_rows (S i) rest
  end.

Definition outcome_of (i : nat) (segment : Segment) : attempt_outcome :=
  match export_model i (seg_audio_segment segment) with
  | Exported =>
      match asr_pipeline i (seg_audio_segment segment) with
      | Ok raw => if has_speech (strip raw) then Transcribed else NoSpeech
      | Raise _ => Failed
      end
  | ExportFailed _ _ => Failed
  end.

(** The number of segments whose attempt ends in [o], the first attempt
    having number [i]. *)
Fixpoint count_outcomes (o : attempt_outcome) (i : nat)
    (segments : list Segment) : nat :=
  match segments with
  | [] => 0
  | segment :: rest =>
      ((if same_outcome (outcome_of i segment) o then 1 else 0)
       + count_outcomes o (S i) rest)%nat
  end.

(** The corrected text recorded for the text number [i]. *)
Definition corrected_of (i : nat) (text : str) : str :=
  match correction_model i text with
  | Ok corrected => corrected
  | Raise _ => text
  end.

Definition succeeded (i : nat) (text : str) : bool :=
  match correction_model i text with
  | Ok _ => true
  | Raise _ => false
  end.

Fixpoint corrections_from (i : nat) (texts : list str) : list str :=
  match texts with
  | [] => []
  | text :: rest => corrected_of i text :: corrections_from (S i) rest
  end.

(** The number of texts whose correction call returns. *)
Fixpoint successes_from (i : nat) (texts : list str) : nat :=
  match texts with
  | [] => 0
  | text :: rest =>
      ((if succeeded i text then 1 else 0) + successes_from (S i) rest)%nat
  end.

(** What [summarize_text] returns for the call number [i]. *)
Definition summary_of (i : nat) (input_text : str) : str * bool :=
  match summarization_model i (prompt_prefix ++ input_text) with
  | Ok summary => (strip summary, true)
  | Raise _ => (prefix 200 input_text ++ py "...", false)
  end.

(** The row of the speaker number [i]. *)
Definition summary_row (i : nat) (group : str * str) : SummaryRow :=
  let summary_text := (summary_of i (processed_text_of group.2)).1 in
  {| s_speaker := group.1;
     s_original_text_length := len group.2;
     s_summary_length := len summary_text;
     s_compression_ratio := compression_ratio_of summary_text group.2;
     s_summary := summary_text |}.

Fixpoint summary_rows_from (i : nat) (groups : list (str * str))
  : list SummaryRow :=
  match groups with
  | [] => []
  | group :: rest => summary_row i group :: summary_rows_from (S i) rest
  end.

Fixpoint summary_successes_from (i : nat) (groups : list (str * str)) : nat :=
  match groups with
  | [] => 0
  | group :: rest =>
      ((if (summary_of i (processed_text_of group.2)).2 then 1 else 0)
       + summary_successes_from (S i) rest)%nat
  end.

End Outcomes.

(** ** Concrete inputs *)

Definition ex_audio : AudioSegment := mkAudio 8000 (Z.of_nat <$> seq 0 16).

(** Four tracks, one of them shorter than the minimum. *)
Definition ex_diarization (a : AudioSegment) : list Turn :=
  [ mkTurn 3 4 (py "B"); mkTurn 1 2 (py "A"); mkTurn 5 (21 # 4) (py "A");
    mkTurn 0 1 (py "A") ].

Definition ex_getitem (a : AudioSegment) (start_ms end_ms : Z) : AudioSegment :=
  mkAudio (frame_rate a) [start_ms; end_ms].

(** The export of the second segment fails and leaves a file. *)
Definition ex_export (i : nat) (a : AudioSegment) : export_result :=
  match i with
  | 1%nat => ExportFailed (ModelError 1) true
  | _ => Exported
  end.

(** The third segment is heard as a placeholder. *)
Definition ex_asr (i : nat) (a : AudioSegment) : result str :=
  match i with
  | 0%nat => Ok (py " hello  world ")
  | 2%nat => Ok (py " . ")
  | _ => Ok (py "bye")
  end.

(** A correction model whose every call raises. *)
Definition failing_correction (i : nat) (text : str) : result str :=
  Raise (ModelError 2).

Definition ex_summarization (i : nat) (text : str) : result str :=
  Ok (py " short ").

Definition ex_fs : gmap str file := {[ py "in.wav" := AudioFile ex_audio ]}.

Definition ex_diarization_table : list DiarizationRow :=
  [ {| d_speaker := py "A"; d_start_time := 0; d_end_time := 1;
       d_duration := 1 |};
    {| d_speaker := py "A"; d_start_time := 1; d_end_time := 2;
       d_duration := 1 |};
    {| d_speaker := py "B"; d_start_time := 3; d_end_time := 4;
       d_duration := 1 |} ].

Definition ex_fs_diarized : gmap str file :=
  <[ py "d.csv" := DiarizationCsv ex_diarization_table ]> ex_fs.

(** The table of the example of the specification: one row of speaker "A"
    with the text "helo wrld". *)
Definition helo_wrld_table : list AsrRow :=
  [ {| a_speaker := py "A"; a_start_time := 0; a_end_time := 1;
       a_duration := 1; a_text := py "helo wrld"; a_word_count := 2 |} ].

Definition ex_fs_recognized : gmap str file :=
  {[ py "a.csv" := AsrCsv helo_wrld_table ]}.

Definition ex_fs_corrected : gmap str file :=
  {[ py "c.csv" := CorrectionCsv hi_there_table ]}.

Definition ex_recognition_table : list AsrRow :=
  [ {| a_speaker := py "A"; a_start_time := 0; a_end_time := 1;
       a_duration := 1; a_text := py "hello  world"; a_word_count := 2 |} ].

Definition ex_recognition_metrics : metrics :=
  MAsr {| am_segments_processed := 3; am_segments_with_speech := 1;
          am_success_rate := true_div 1 3; am_total_words := 2;
          am_speakers_count := 1 |}.

(** A diarization model that finds no track. *)
Definition silent_diarization (a : AudioSegment) : list Turn := [].

(** A recognition model that hears a placeholder in every segment. *)
Definition placeholder_asr (i : nat) (a : AudioSegment) : result str :=
  Ok (py " ... ").

(** C8 as the specification states it: every segment the stage extracts
    holds the frames of the exact range [[start_time, end_time)] of its
    row. *)
Definition extracts_exact_sample_range
    (getitem : AudioSegment -> Z -> Z -> AudioSegment)
    (audio_file_path : str) (df : list DiarizationRow) (fs : gmap str file)
  : Prop :=
  exists audio segments,
    fs !! audio_file_path = Some (AudioFile audio)
    /\ extract_audio_segments getitem audio_file_path df fs
       = (Ok segments, fs)
    /\ Forall (fun segment =>
                 frames (seg_audio_segment segment)
                 = sample_range audio (seg_start_time segment)
                                      (seg_end_time segment))
              segments.

(** One second of audio at 8000 frames per second. *)
Definition c8_audio : AudioSegment :=
  mkAudio 8000 (Z.of_nat <$> seq 0 (Z.to_nat 8000)).

(** Two rows that end at second 1; one starts at second 0, the other
    1/2048 of a second later, which is less than a millisecond. *)
Definition c8_table : list DiarizationRow :=
  [ {| d_speaker := py "A"; d_start_time := 0; d_end_time := 1;
       d_duration := 1 |};
    {| d_speaker := py "B"; d_start_time := 1 # 2048; d_end_time := 1;
       d_duration := 2047 # 2048 |} ].

Definition c8_fs : gmap str file := {[ py "in.wav" := AudioFile c8_audio ]}.

(** ** Definitions for the further properties *)

(** The diarization columns of a recognition row. *)
Definition asr_source (r : AsrRow) : DiarizationRow :=
  {| d_speaker := a_speaker r;
     d_start_time := a_start_time r;
     d_end_time := a_end_time r;
     d_duration := a_duration r |}.

(** The diarization columns of a segment. *)
Definition segment_source (segment : Segment) : DiarizationRow :=
  {| d_speaker := seg_speaker segment;
     d_start_time := seg_start_time segment;
     d_end_time := seg_end_time segment;
     d_duration := seg_duration segment |}.

(** A text whose first and last characters are not whitespace. *)
Definition trimmed (text : str) : Prop :=
  (exists c rest, text = c :: rest /\ isspace c = false)
  /\ (exists init c, text = init ++ [c] /\ isspace c = false).

(** A name that the recognition stage gives to a temporary file. *)
Definition is_temp_name (path : str) : Prop :=
  exists speaker index,
    path = py "temp_" ++ speaker ++ py "_" ++ str_of_nat index ++ py ".wav".

(** The files the driver writes for a prefix. *)
Definition driver_outputs (output_prefix : str) : list str :=
  (fun suffix => output_prefix ++ suffix)
    <$> [py "_diarization.csv"; py "_asr.csv"; py "_correction.csv";
         py "_summarization.csv"; py "_meeting_minutes.txt";
         py "_metrics.json"].

(** A computation that leaves every file whose path is outside [P] as it
    was, whether it returns or raises. *)
Definition preserves {A} (P : str -> Prop) (m : M A) : Prop :=
  forall (fs : gmap str file) (path : str),
    ~ P path -> (m fs).2 !! path = fs !! path.

(** ** Python and numpy values ([convert_metrics_for_json])

    The driver's own metrics hold plain numbers, and
    [convert_metrics_for_json] above leaves them.  Here the function is
    taken on the values it tells apart: dictionaries, numpy integers, numpy
    floats, numpy arrays, and everything else. *)

#[local] Set Warnings "-register-all".

Module PyValue.

(** The contents of a numpy array. *)
Inductive ndarray :=
| NdInt (items : list Z)
| NdFloat (items : list Q)
| NdBool (items : list bool)
| NdNested (rows : list ndarray).

Inductive value :=
| PyNone
| PyBool (b : bool)
| PyInt (n : Z)
| PyFloat (x : Q)
| PyString (s : str)
| PyList (items : list value)
| PyDict (items : list (str * value))   (* keys in insertion order *)
| NpInteger (n : Z)                     (* an instance of [np.integer] *)
| NpFloating (x : Q)                    (* an instance of [np.floating] *)
| NpBool (b : bool)                     (* [np.bool_], not an integer *)
| NpArray (a : ndarray).

(** [a.tolist()]: nested lists of Python scalars. *)
Fixpoint tolist (a : ndarray) : value :=
  match a with
  | NdInt items => PyList (map PyInt items)
  | NdFloat items => PyList (map PyFloat items)
  | NdBool items => PyList (map PyBool items)
  | NdNested rows => PyList (map tolist rows)
  end.

Definition convert_value (v : value) : value :=
  match v with
  | NpInteger n => PyInt n
  | NpFloating x => PyFloat x
  | NpArray a => tolist a
  | _ => v
  end.

Fixpoint convert_metrics_for_json (metrics : value) : value :=
  match metrics with
  | PyDict items =>
      PyDict (map (fun '(key, v) => (key, convert_metrics_for_json v)) items)
  | _ => convert_value metrics
  end.

(** A value that holds no numpy value at any depth. *)
Fixpoint plain (v : value) : bool :=
  match v with
  | PyNone | PyBool _ | PyInt _ | PyFloat _ | PyString _ => true
  | PyList items => forallb plain items
  | PyDict items => forallb (fun '(_, x) => plain x) items
  | NpInteger _ | NpFloating _ | NpBool _ | NpArray _ => false
  end.

(** The values whose conversion holds no numpy value: below dictionaries,
    no [np.bool_], and no list that holds a numpy value. *)
Fixpoint convertible (v : value) : bool :=
  match v with
  | PyDict items => forallb (fun '(_, x) => convertible x) items
  | PyList items => forallb plain items
  | NpBool _ => false
  | _ => true
  end.

(** The keys of a dictionary, in order. *)
Definition keys (v : value) : list str :=
  match v with
  | PyDict items => map fst items
  | _ => []
  end.

End PyValue.

(** ** Further concrete inputs *)

(** The run of the driver on [ex_fs] with the prefix "t". *)
Definition ex_run : result (gmap str metrics) * gmap str file :=
  run_complete_pipeline ex_diarization ex_getitem ex_export ex_asr
    failing_correction ex_summarization (py "in.wav") (py "t") ex_fs.

Definition ex_run_metrics : gmap str metrics :=
  match ex_run.1 with
  | Ok all_metrics => all_metrics
  | Raise _ => ∅
  end.

Definition ex_run_fs : gmap str file := ex_run.2.

(** * Properties *)

(** ** Strings *)

Module PyStrFacts.

Lemma lstrip_no_lead s : no_lead (lstrip s).
Proof.
  induction s as [|c s IH]; simpl; [done|].
  destruct (isspace c) eqn:E; [done|]. simpl. done.
Qed.

Lemma lstrip_fixed s : no_lead s -> lstrip s = s.
Proof. destruct s as [|c s]; simpl; [done|]. by intros ->. Qed.

Lemma lstrip_suffix s : exists sp, s = sp ++ lstrip s.
Proof.
  induction s as [|c s [sp IH]]; simpl.
  - by exists [].
  - destruct (isspace c).
    + exists (c :: sp). simpl. by f_equal.
    + by exists [].
Qed.

Lemma rstrip_prefix s : exists sp, s = rstrip s ++ sp.
Proof.
  unfold rstrip. destruct (lstrip_suffix (rev s)) as [sp E].
  exists (rev sp). rewrite <- rev_app_distr, <- E. by rewrite rev_involutive.
Qed.

Lemma rstrip_no_lead s : no_lead s -> no_lead (rstrip s).
Proof.
  intros H. destruct (rstrip_prefix s) as [sp E].
  destruct (rstrip s) as [|c r] eqn:R; [done|].
  rewrite E in H. done.
Qed.

Lemma rstrip_idem s : rstrip (rstrip s) = rstrip s.
Proof.
  unfold rstrip. rewrite rev_involutive.
  by rewrite (lstrip_fixed _ (lstrip_no_lead _)).
Qed.

Lemma strip_no_lead s : no_lead (strip s).
Proof. apply rstrip_no_lead, lstrip_no_lead. Qed.

Lemma strip_idem s : strip (strip s) = strip s.
Proof.
  unfold strip at 1. rewrite (lstrip_fixed _ (strip_no_lead s)).
  unfold strip. apply rstrip_idem.
Qed.

Lemma length_split_from w s :
  length (split_from w s) =
  ((match w with [] => 0 | _ => 1 end)
   + count_word_starts (match w with [] => true | _ => false end) s)%nat.
Proof.
  revert w. induction s as [|c s IH]; intros w; simpl.
  - by destruct w.
  - destruct (isspace c).
    + destruct w; simpl; rewrite IH; simpl; lia.
    + rewrite IH. destruct w; simpl; lia.
Qed.

Lemma length_split s : length (split s) = count_word_starts true s.
Proof. unfold split. by rewrite length_split_from. Qed.


Lemma has_speech_spec text :
  has_speech text = true <->
  text <> [] /\ text <> py "." /\ text <> py "...".
Proof.
  unfold has_speech. rewrite andb_true_iff, !bool_decide_eq_true.
  rewrite !not_elem_of_cons. split.
  - intros (H0 & _ & H1 & H2 & _). done.
  - intros (H0 & H1 & H2). repeat split; try done. apply not_elem_of_nil.
Qed.

#[export] Instance str_le_refl : Reflexive str_le.
Proof.
  intros a. unfold str_le. induction a as [|x a IH]; simpl; [done|].
  by rewrite N.ltb_irrefl.
Qed.

#[export] Instance str_le_total : Total str_le.
Proof.
  intros a. unfold str_le. induction a as [|x a IH]; intros [|y b]; simpl; auto.
  destruct (N.ltb_spec x y), (N.ltb_spec y x); auto; lia.
Qed.

#[export] Instance str_le_trans : Transitive str_le.
Proof.
  intros a. unfold str_le.
  induction a as [|x a IH]; intros [|y b] [|z c]; simpl; try done.
  destruct (N.ltb_spec x y), (N.ltb_spec y x), (N.ltb_spec y z),
    (N.ltb_spec z y), (N.ltb_spec x z), (N.ltb_spec z x);
    try done; try lia.
  apply IH.
Qed.

#[export] Instance str_le_antisym : AntiSymm (=) str_le.
Proof.
  intros a. unfold str_le.
  induction a as [|x a IH]; intros [|y b]; simpl; try done.
  destruct (N.ltb_spec x y), (N.ltb_spec y x); try done; try lia.
  intros H1 H2. f_equal; [lia|]. by apply IH.
Qed.

End PyStrFacts.

Import PyStrFacts.

(** ** The stage monad *)

Lemma bind_Ok {A B} (m : M A) (k : A -> M B) fs a fs' :
  m fs = (Ok a, fs') -> (m ≫= k) fs = k a fs'.
Proof. unfold mbind, M_bind, bind. by intros ->. Qed.

Lemma from_file_Ok path fs audio :
  fs !! path = Some (AudioFile audio) -> from_file path fs = (Ok audio, fs).
Proof. unfold from_file. by intros ->. Qed.

(** ** pandas operations *)

#[export] Instance key_le_total {A} (key : A -> Q) : Total (key_le key).
Proof.
  intros x y. unfold key_le. rewrite !Qle_bool_iff.
  destruct (Qlt_le_dec (key y) (key x)) as [H|H]; [right|left]; [|done].
  by apply Qlt_le_weak.
Qed.

#[export] Instance key_le_trans {A} (key : A -> Q) : Transitive (key_le key).
Proof.
  intros x y z. unfold key_le. rewrite !Qle_bool_iff. apply Qle_trans.
Qed.

Lemma sort_values_perm {A} (key : A -> Q) df : sort_values key df ≡ₚ df.
Proof. apply merge_sort_Permutation. Qed.

Lemma sort_values_ascending {A} (key : A -> Q) df :
  ascending key (sort_values key df).
Proof.
  unfold ascending, sort_values.
  assert (StronglySorted (key_le key) (merge_sort (key_le key) df)) as H
    by (apply StronglySorted_merge_sort; apply _).
  induction H as [|x l _ IH Hx]; constructor; [done|].
  eapply Forall_impl; [exact Hx|].
  intros y. unfold key_le. by rewrite Qle_bool_iff.
Qed.

Lemma sort_values_length {A} (key : A -> Q) df :
  length (sort_values key df) = length df.
Proof. by rewrite sort_values_perm. Qed.

Lemma sort_values_nil_inv {A} (key : A -> Q) df :
  sort_values key df = [] -> df = [].
Proof.
  intros H. apply Permutation_nil_r. rewrite <- H.
  symmetry. apply sort_values_perm.
Qed.

(** ** Diarization *)

Lemma diarization_segments_spec tracks :
  diarization_segments tracks = row_of_turn <$> filter long_enough tracks.
Proof.
  unfold diarization_segments.
  enough (forall acc,
    foldl (fun segments turn =>
             if Qlt_bool (turn_end turn - turn_start turn)
                         ModelConfig.MIN_SEGMENT_DURATION
             then segments
             else segments ++ [row_of_turn turn]) acc tracks
    = acc ++ (row_of_turn <$> filter long_enough tracks)) as H
    by apply (H []).
  induction tracks as [|turn tracks IH]; intros acc; simpl.
  - by rewrite app_nil_r.
  - rewrite IH. unfold Qlt_bool. rewrite filter_cons.
    destruct (decide (long_enough turn)) as [H|H]; unfold long_enough in H.
    + rewrite H. simpl. by rewrite <- app_assoc.
    + apply not_true_is_false in H. by rewrite H.
Qed.

Lemma row_of_turn_valid turn : long_enough turn -> valid_segment (row_of_turn turn).
Proof.
  unfold long_enough, valid_segment. rewrite Qle_bool_iff. simpl. intros H.
  split; [|done].
  apply (Qplus_lt_l _ _ (- turn_start turn)). rewrite Qplus_opp_r.
  eapply Qlt_le_trans; [|exact H]. done.
Qed.

Section Diarization.

Variable diarization_pipeline : AudioSegment -> list Turn.

(** C7. For every audio input, the diarization stage returns; the segments
    it retains are those of the tracks that last [MIN_SEGMENT_DURATION] at
    least, the shorter ones being left out; each retained segment satisfies
    [end_time > start_time], [duration = end_time - start_time] and
    [duration >= MIN_SEGMENT_DURATION]; the table is in ascending order of
    [start_time], and a non-empty table is written to the output file as it
    is returned. *)
Theorem C7_diarization_segments audio_file_path output_csv_path fs audio :
  fs !! audio_file_path = Some (AudioFile audio) ->
  exists df m fs',
    perform_diarization diarization_pipeline audio_file_path output_csv_path fs
    = (Ok (df, m), fs')
    /\ df ≡ₚ row_of_turn <$> filter long_enough (diarization_pipeline audio)
    /\ Forall valid_segment df
    /\ ascending d_start_time df
    /\ (df <> [] -> fs' = <[output_csv_path := DiarizationCsv df]> fs)
    /\ (df = [] -> fs' = fs).
Proof.
  intros Haudio. unfold perform_diarization.
  rewrite (bind_Ok _ _ _ _ _ (from_file_Ok _ _ _ Haudio)).
  rewrite diarization_segments_spec.
  set (kept := row_of_turn <$> filter long_enough (diarization_pipeline audio)).
  assert (Forall valid_segment kept) as Hvalid.
  { subst kept. apply Forall_fmap, Forall_forall. intros turn Hin.
    apply row_of_turn_valid. by apply list_elem_of_filter in Hin as [? _]. }
  destruct kept as [|r kept'] eqn:E.
  - eexists [], _, fs. repeat split; try done. constructor.
  - rewrite <- E in *. eexists (sort_values d_start_time kept), _, _.
    split; [reflexivity|].
    split; [apply sort_values_perm|].
    split; [by rewrite sort_values_perm|].
    split; [apply sort_values_ascending|].
    split; [done|].
    intros H%sort_values_nil_inv. congruence.
Qed.

End Diarization.

(** ** Recognition *)

(** [int(x)] of a non-negative float is the whole part of [x]. *)
Lemma int_of_bounds (x : Q) :
  (0 <= x)%Q ->
  (inject_Z (int_of x) <= x)%Q /\ (x < inject_Z (int_of x) + 1)%Q.
Proof.
  intros Hx. assert (int_of x = Qfloor x) as ->.
  { destruct x as [n d]. unfold int_of, Qfloor. simpl.
    apply Z.quot_div_nonneg; [|done].
    unfold Qle in Hx. simpl in Hx. lia. }
  split; [apply Qfloor_le|].
  rewrite <- (inject_Z_plus _ 1). apply Qlt_floor.
Qed.

Lemma foldl_snoc_fmap {A B} (f : A -> B) (l : list A) (acc : list B) :
  foldl (fun acc x => acc ++ [f x]) acc l = acc ++ (f <$> l).
Proof.
  revert acc. induction l as [|x l IH]; intros acc; simpl.
  - by rewrite app_nil_r.
  - by rewrite IH, <- app_assoc.
Qed.

Lemma length_iterrows {A} (df : list A) : length (iterrows df) = length df.
Proof. unfold iterrows. rewrite length_zip, length_seq. lia. Qed.

Lemma lookup_iterrows {A} (df : list A) i row :
  df !! i = Some row -> iterrows df !! i = Some (i, row).
Proof.
  intros H. unfold iterrows. apply lookup_zip_with_Some.
  exists i, row. split; [done|]. split; [|done].
  apply lookup_seq. split; [done|]. by apply lookup_lt_Some in H.
Qed.

Lemma write_then_remove (path : str) (f : file) (fs : gmap str file) :
  delete path (<[path := f]> fs) = delete path fs.
Proof. apply delete_insert_eq. Qed.

Section Recognition.

Variable getitem : AudioSegment -> Z -> Z -> AudioSegment.
Variable export_model : nat -> AudioSegment -> export_result.
Variable asr_pipeline : nat -> AudioSegment -> result str.

(** In this section the specification-side definitions are applied to the
    operations above. *)
Abbreviation segment_of := (segment_of getitem).
Abbreviation attempt_row := (attempt_row export_model asr_pipeline).
Abbreviation attempt_rows := (attempt_rows export_model asr_pipeline).
Abbreviation outcome_of := (outcome_of export_model asr_pipeline).
Abbreviation count_outcomes := (count_outcomes export_model asr_pipeline).

Lemma extract_audio_segments_spec audio_file_path df fs audio :
  fs !! audio_file_path = Some (AudioFile audio) ->
  extract_audio_segments getitem audio_file_path df fs
  = (Ok (segment_of audio <$> iterrows df), fs).
Proof.
  intros Haudio. unfold extract_audio_segments.
  rewrite (bind_Ok _ _ _ _ _ (from_file_Ok _ _ _ Haudio)).
  unfold mret, M_ret, ret. f_equal. f_equal.
  match goal with
  | |- foldl ?f [] ?l = _ =>
      enough (forall acc, foldl f acc l = acc ++ (segment_of audio <$> l)) as H
        by apply (H [])
  end.
  induction (iterrows df) as [|[index row] l IH]; intros acc; simpl.
  - by rewrite app_nil_r.
  - rewrite IH. by rewrite <- app_assoc.
Qed.

Lemma transcribe_segment_spec i segment results fs :
  transcribe_segment export_model asr_pipeline i segment results fs
  = (Ok (results ++ option_list (attempt_row i segment)),
     delete (temp_file_of segment) fs).
Proof.
  unfold transcribe_segment, try_finally, try_except, export, asr_text,
    attempt_row, path_exists, remove, write_file, from_file, call, raise,
    mbind, M_bind, bind, mret, M_ret, ret.
  destruct (export_model i (seg_audio_segment segment)) as [|e [|]]; simpl.
  - rewrite lookup_insert_eq.
    destruct (asr_pipeline i (seg_audio_segment segment)) as [raw|e];
      [destruct (has_speech (strip raw))|];
      simpl; rewrite lookup_insert_eq; simpl; rewrite lookup_insert_eq;
      by rewrite write_then_remove, ?app_nil_r.
  - rewrite lookup_insert_eq; simpl. rewrite lookup_insert_eq.
    by rewrite write_then_remove, app_nil_r.
  - rewrite app_nil_r.
    destruct (fs !! temp_file_of segment) as [f|] eqn:E; simpl.
    + by rewrite E.
    + by rewrite delete_id.
Qed.

Lemma transcribe_from_spec i segments results fs :
  transcribe_from export_model asr_pipeline i segments results fs
  = (Ok (results ++ attempt_rows i segments), without_temp_files segments fs).
Proof.
  revert i results fs.
  induction segments as [|segment rest IH]; intros i results fs; simpl.
  - by rewrite app_nil_r.
  - rewrite (bind_Ok _ _ _ _ _ (transcribe_segment_spec _ _ _ _)).
    rewrite IH. by rewrite <- app_assoc.
Qed.

Lemma without_temp_files_removed segments fs path :
  path ∈ temp_file_of <$> segments ->
  without_temp_files segments fs !! path = None.
Proof.
  unfold without_temp_files.
  induction segments as [|segment rest IH] using rev_ind; intros Hin.
  - by apply elem_of_nil in Hin.
  - rewrite foldl_app. simpl.
    destruct (decide (path = temp_file_of segment)) as [->|Hne].
    + apply lookup_delete_eq.
    + rewrite lookup_delete_ne by done. apply IH.
      rewrite fmap_app, elem_of_app in Hin. destruct Hin as [Hin|Hin]; [done|].
      apply list_elem_of_singleton in Hin. done.
Qed.

Lemma without_temp_files_other segments fs path :
  path ∉ temp_file_of <$> segments ->
  without_temp_files segments fs !! path = fs !! path.
Proof.
  unfold without_temp_files.
  induction segments as [|segment rest IH] using rev_ind; intros Hin; [done|].
  rewrite foldl_app. simpl.
  rewrite fmap_app, not_elem_of_app in Hin. destruct Hin as [Hrest Hseg].
  rewrite lookup_delete_ne; [by apply IH|].
  intros Heq. apply Hseg. rewrite <- Heq. simpl. left.
Qed.

Lemma length_attempt_rows i segments :
  (length (attempt_rows i segments) <= length segments)%nat.
Proof.
  revert i. induction segments as [|segment rest IH]; intros i; simpl; [lia|].
  rewrite length_app. specialize (IH (S i)).
  destruct (attempt_row i segment); simpl; lia.
Qed.

(** What the stage returns and leaves on disk, from the table and the audio
    it reads. *)
Lemma perform_speech_recognition_spec
    audio_file_path diarization_csv_path output_csv_path fs audio ddf :
  fs !! audio_file_path = Some (AudioFile audio) ->
  fs !! diarization_csv_path = Some (DiarizationCsv ddf) ->
  let segments := segment_of audio <$> iterrows ddf in
  let rows := attempt_rows 0 segments in
  let df := sort_values a_start_time rows in
  perform_speech_recognition getitem export_model asr_pipeline
    audio_file_path diarization_csv_path output_csv_path fs
  = match rows with
    | [] => (Ok ([], MAsrEmpty (length segments)),
             without_temp_files segments fs)
    | _ :: _ =>
        (Ok (df,
             MAsr {| am_segments_processed := length segments;
                     am_segments_with_speech := length df;
                     am_success_rate :=
                       if (0 <? length segments)%nat
                       then true_div (length df) (length segments)
                       else 0%Q;
                     am_total_words := sum_list (a_word_count <$> df);
                     am_speakers_count := nunique (a_speaker <$> df) |}),
         <[output_csv_path := AsrCsv df]> (without_temp_files segments fs))
    end.
Proof.
  intros Haudio Hcsv segments rows df. unfold perform_speech_recognition.
  erewrite bind_Ok; [|unfold read_diarization_csv; by rewrite Hcsv].
  erewrite bind_Ok; [|by apply extract_audio_segments_spec].
  erewrite bind_Ok; [|apply transcribe_from_spec].
  simpl. fold segments. fold rows. by destruct rows.
Qed.

Lemma attempt_row_valid i segment r :
  attempt_row i segment = Some r -> valid_asr_row r.
Proof.
  unfold attempt_row.
  destruct (export_model _ _); [|done].
  destruct (asr_pipeline _ _) as [raw|]; [|done].
  destruct (has_speech (strip raw)) eqn:E; [|done].
  intros [= <-]. apply has_speech_spec in E as (H0 & H1 & H2).
  unfold valid_asr_row. simpl. rewrite strip_idem, length_split.
  split; [done|]. split; [|done].
  rewrite !not_elem_of_cons. repeat split; try done. apply not_elem_of_nil.
Qed.

Lemma attempt_rows_valid i segments : Forall valid_asr_row (attempt_rows i segments).
Proof.
  revert i. induction segments as [|segment rest IH]; intros i; simpl.
  - constructor.
  - apply Forall_app. split; [|apply IH].
    destruct (attempt_row i segment) eqn:E; simpl; [|constructor].
    constructor; [|constructor]. by eapply attempt_row_valid.
Qed.

(** C6. The recognition stage returns; no row of its table has a text that
    is empty or, trimmed, one of the placeholders (the empty string, ["."]
    and ["..."]);
    the [word_count] of a row is the number of whitespace-separated words of
    its text; the table is in ascending order of [start_time], and a
    non-empty table is written to the output file as it is returned. *)
Theorem C6_recognition_rows
    audio_file_path diarization_csv_path output_csv_path fs audio ddf :
  fs !! audio_file_path = Some (AudioFile audio) ->
  fs !! diarization_csv_path = Some (DiarizationCsv ddf) ->
  exists df m fs',
    perform_speech_recognition getitem export_model asr_pipeline
      audio_file_path diarization_csv_path output_csv_path fs
    = (Ok (df, m), fs')
    /\ Forall valid_asr_row df
    /\ ascending a_start_time df
    /\ (df <> [] -> fs' !! output_csv_path = Some (AsrCsv df)).
Proof.
  intros Haudio Hcsv.
  rewrite (perform_speech_recognition_spec _ _ _ _ _ _ Haudio Hcsv).
  set (rows := attempt_rows 0 (segment_of audio <$> iterrows ddf)).
  assert (Forall valid_asr_row rows) as Hvalid by apply attempt_rows_valid.
  destruct rows as [|r rows'] eqn:E.
  - eexists [], _, _. split; [reflexivity|]. repeat split; try done.
    constructor.
  - rewrite <- E in *. eexists _, _, _. split; [reflexivity|].
    split; [by rewrite sort_values_perm|].
    split; [apply sort_values_ascending|].
    intros _. apply lookup_insert_eq.
Qed.

Lemma attempt_row_failed i segment :
  outcome_of i segment = Failed -> attempt_row i segment = None.
Proof.
  unfold outcome_of, attempt_row.
  destruct (export_model _ _); [|done].
  destruct (asr_pipeline _ _) as [raw|]; [|done].
  by destruct (has_speech _).
Qed.

(** C9. The attempt on a segment never raises, and the temporary file of the
    segment does not exist after it, whatever the export and the model call
    did and whether or not a file of that name existed before; when the
    export or the model call raised, the segment is skipped: the results are
    as they were.  The loop over the segments never raises either, and no
    temporary file of a segment exists after it. *)
Theorem C9_temporary_files_removed i segment segments results fs :
  (exists results' fs',
     transcribe_segment export_model asr_pipeline i segment results fs
     = (Ok results', fs')
     /\ fs' !! temp_file_of segment = None
     /\ (outcome_of i segment = Failed -> results' = results))
  /\ (exists results' fs',
        transcribe_audio_segments export_model asr_pipeline segments fs
        = (Ok results', fs')
        /\ Forall (fun s => fs' !! temp_file_of s = None) segments).
Proof.
  split.
  - eexists _, _. split; [apply transcribe_segment_spec|].
    split; [apply lookup_delete_eq|].
    intros Hfailed. by rewrite (attempt_row_failed _ _ Hfailed), app_nil_r.
  - eexists _, _. split; [apply transcribe_from_spec|].
    apply Forall_forall. intros s Hs.
    apply without_temp_files_removed. by apply list_elem_of_fmap_2.
Qed.

Lemma length_attempt_rows_outcomes i segments :
  length (attempt_rows i segments) = count_outcomes Transcribed i segments.
Proof.
  revert i. induction segments as [|segment rest IH]; intros i; simpl; [done|].
  rewrite length_app, IH. f_equal.
  unfold attempt_row, outcome_of.
  destruct (export_model _ _); [|done].
  destruct (asr_pipeline _ _) as [raw|]; [|done].
  by destruct (has_speech _).
Qed.

Lemma count_outcomes_total i segments :
  (count_outcomes Transcribed i segments + count_outcomes NoSpeech i segments
   + count_outcomes Failed i segments = length segments)%nat.
Proof.
  revert i. induction segments as [|segment rest IH]; intros i; simpl; [done|].
  specialize (IH (S i)). destruct (outcome_of i segment); simpl; lia.
Qed.

(** C10. When the recognition stage returns a non-empty table, its
    [success_rate] is the number of rows of the table divided by the number
    of rows of the diarization table it read; the segments that are missing
    from the table are those whose text was empty or a placeholder and
    those whose attempt raised, which the rate does not tell apart. *)
Theorem C10_recognition_success_rate
    audio_file_path diarization_csv_path output_csv_path fs audio ddf
    df m fs' :
  fs !! audio_file_path = Some (AudioFile audio) ->
  fs !! diarization_csv_path = Some (DiarizationCsv ddf) ->
  perform_speech_recognition getitem export_model asr_pipeline
    audio_file_path diarization_csv_path output_csv_path fs
  = (Ok (df, m), fs') ->
  df <> [] ->
  exists am,
    m = MAsr am
    /\ am_segments_processed am = length ddf
    /\ am_segments_with_speech am = length df
    /\ am_success_rate am = true_div (length df) (length ddf)
    /\ (length df
        + count_outcomes NoSpeech 0 (segment_of audio <$> iterrows ddf)
        + count_outcomes Failed 0 (segment_of audio <$> iterrows ddf)
        = length ddf)%nat.
Proof.
  intros Haudio Hcsv.
  rewrite (perform_speech_recognition_spec _ _ _ _ _ _ Haudio Hcsv).
  set (segments := segment_of audio <$> iterrows ddf).
  assert (length segments = length ddf) as Hlen
    by (subst segments; by rewrite length_fmap, length_iterrows).
  pose proof (count_outcomes_total 0 segments) as Htotal.
  rewrite <- length_attempt_rows_outcomes in Htotal.
  destruct (attempt_rows 0 segments) as [|r rows] eqn:E.
  - intros [= <- <- <-]. done.
  - rewrite <- E in *. intros [= <- <- <-] _. eexists. split; [reflexivity|].
    simpl. rewrite sort_values_length, Hlen.
    assert (0 < length ddf)%nat as Hpos.
    { rewrite <- Hlen. pose proof (length_attempt_rows 0 segments) as Hle.
      rewrite E in Hle. simpl in Hle. lia. }
    apply Nat.ltb_lt in Hpos. rewrite Hpos.
    repeat split; try done. lia.
Qed.


End Recognition.

(** ** Correction *)

Section Correction.

Variable correction_model : nat -> str -> result str.

Abbreviation corrected_of := (corrected_of correction_model).
Abbreviation succeeded := (succeeded correction_model).
Abbreviation corrections_from := (corrections_from correction_model).
Abbreviation successes_from := (successes_from correction_model).

Lemma correct_text_spec i text fs :
  correct_text correction_model i text fs
  = (Ok (corrected_of i text, succeeded i text), fs).
Proof.
  unfold correct_text, try_except, call, corrected_of, succeeded,
    mbind, M_bind, bind, mret, M_ret, ret.
  by destruct (correction_model i text).
Qed.

Lemma correction_from_spec i texts acc n fs :
  correction_from correction_model i texts acc n fs
  = (Ok (acc ++ corrections_from i texts, (n + successes_from i texts)%nat),
     fs).
Proof.
  revert i acc n. induction texts as [|text rest IH]; intros i acc n; simpl.
  - by rewrite app_nil_r, Nat.add_0_r.
  - rewrite (bind_Ok _ _ _ _ _ (correct_text_spec _ _ _)).
    rewrite IH, <- app_assoc. simpl. do 3 f_equal.
    destruct (succeeded i text); lia.
Qed.

Lemma length_corrections_from i texts :
  length (corrections_from i texts) = length texts.
Proof.
  revert i. induction texts as [|text rest IH]; intros i; simpl; [done|].
  by rewrite IH.
Qed.

Lemma lookup_corrections_from i texts j text :
  texts !! j = Some text ->
  corrections_from i texts !! j = Some (corrected_of (i + j) text).
Proof.
  revert i j. induction texts as [|t rest IH]; intros i j; [done|].
  destruct j as [|j]; simpl.
  - intros [= ->]. by rewrite Nat.add_0_r.
  - intros H. rewrite (IH (S i) j H). do 2 f_equal. lia.
Qed.

Lemma fmap_c_row_zip (rows : list AsrRow) (values : list str) :
  length values = length rows ->
  c_row <$> zip_with mkCorrectionRow rows values = rows.
Proof.
  revert values. induction rows as [|r rows IH]; intros [|v values]; simpl;
    try done.
  intros [= H]. by rewrite IH.
Qed.

(** What the stage returns and writes, from the table it reads. *)
Lemma test_correction_spec input_csv_path output_csv_path fs rows :
  fs !! input_csv_path = Some (AsrCsv rows) ->
  let df := zip_with mkCorrectionRow rows
              (corrections_from 0 (a_text <$> rows)) in
  test_correction correction_model input_csv_path output_csv_path fs
  = (Ok (df,
         MCorrection
           {| cm_segments_count := length rows;
              cm_successful_corrections :=
                successes_from 0 (a_text <$> rows);
              cm_success_rate :=
                if (0 <? length rows)%nat
                then true_div (successes_from 0 (a_text <$> rows))
                              (length rows)
                else 0%Q;
              cm_total_characters_processed :=
                sum_list (len <$> (a_text <$> rows)) |}),
     <[output_csv_path := CorrectionCsv df]> fs).
Proof.
  intros Hcsv df. unfold test_correction.
  erewrite bind_Ok; [|unfold read_asr_csv; by rewrite Hcsv].
  erewrite bind_Ok; [|apply correction_from_spec].
  simpl. unfold assign_corrected_text.
  rewrite decide_True
    by (by rewrite length_corrections_from, length_fmap).
  done.
Qed.


End Correction.

(** ** Summarization *)

Lemma groupby_speaker_lookup df speaker :
  default [] (groupby_speaker df !! speaker) = texts_of speaker df.
Proof.
  unfold groupby_speaker, texts_of.
  induction df as [|row df IH] using rev_ind; [done|].
  rewrite foldl_app, filter_app, fmap_app. simpl.
  rewrite filter_cons, filter_nil.
  destruct (decide (a_speaker (c_row row) = speaker)) as [->|Hne].
  - rewrite lookup_insert_eq. simpl. by rewrite IH.
  - rewrite lookup_insert_ne by done. simpl. by rewrite IH, app_nil_r.
Qed.

Lemma groupby_speaker_is_Some df speaker :
  is_Some (groupby_speaker df !! speaker)
  <-> speaker ∈ (fun row => a_speaker (c_row row)) <$> df.
Proof.
  unfold groupby_speaker.
  induction df as [|row df IH] using rev_ind.
  - simpl. rewrite lookup_empty, elem_of_nil. split; [by intros [? ?]|done].
  - rewrite foldl_app, fmap_app, elem_of_app. simpl.
    rewrite list_elem_of_singleton.
    destruct (decide (a_speaker (c_row row) = speaker)) as [->|Hne].
    + rewrite lookup_insert_eq. split; [by right|by eauto].
    + rewrite lookup_insert_ne by done. rewrite IH. split; [by left|].
      intros [H|H]; [done|]. by symmetry in H.
Qed.

Lemma speakers_of_sorted_keys df :
  speakers_of df
  = merge_sort str_le (fst <$> map_to_list (groupby_speaker df)).
Proof.
  unfold speakers_of, speaker_texts. rewrite <- list_fmap_compose.
  etransitivity; [|apply list_fmap_id]. by apply list_fmap_ext.
Qed.

Lemma speaker_texts_spec df :
  speaker_texts df
  = (fun speaker => (speaker, aggregated_text speaker df)) <$> speakers_of df.
Proof.
  rewrite speakers_of_sorted_keys. unfold speaker_texts, aggregated_text.
  apply list_fmap_ext. intros _ speaker _. simpl.
  by rewrite groupby_speaker_lookup.
Qed.

Lemma speakers_of_NoDup df : NoDup (speakers_of df).
Proof.
  rewrite speakers_of_sorted_keys, merge_sort_Permutation.
  apply NoDup_fst_map_to_list.
Qed.

Lemma speakers_of_elem df speaker :
  speaker ∈ speakers_of df
  <-> speaker ∈ (fun row => a_speaker (c_row row)) <$> df.
Proof.
  rewrite speakers_of_sorted_keys, merge_sort_Permutation.
  rewrite <- groupby_speaker_is_Some, list_elem_of_fmap. split.
  - intros [[k v] [-> H%elem_of_map_to_list]]. by eexists.
  - intros [v H]. exists (speaker, v). split; [done|].
    by apply elem_of_map_to_list.
Qed.

Lemma speakers_of_sorted df : StronglySorted str_le (speakers_of df).
Proof.
  rewrite speakers_of_sorted_keys. apply StronglySorted_merge_sort; apply _.
Qed.

(** The order of the speakers depends on the set of the speakers only. *)
Lemma speakers_of_perm df df' : df ≡ₚ df' -> speakers_of df = speakers_of df'.
Proof.
  intros Hperm. apply (StronglySorted_unique str_le);
    [apply speakers_of_sorted..|].
  apply NoDup_Permutation; [apply speakers_of_NoDup..|].
  intros speaker. rewrite !speakers_of_elem. by rewrite Hperm.
Qed.

Lemma processed_text_of_long original_text :
  (ModelConfig.MAX_SUMMARY_INPUT_LENGTH < len original_text)%nat ->
  processed_text_of original_text
  = take ModelConfig.MAX_SUMMARY_INPUT_LENGTH original_text ++ py "...".
Proof.
  intros H%Nat.ltb_lt. unfold processed_text_of, prefix. by rewrite H.
Qed.

Lemma processed_text_of_short original_text :
  (len original_text <= ModelConfig.MAX_SUMMARY_INPUT_LENGTH)%nat ->
  processed_text_of original_text = original_text.
Proof.
  intros H. unfold processed_text_of.
  destruct (Nat.ltb_spec ModelConfig.MAX_SUMMARY_INPUT_LENGTH
              (len original_text)); [lia|done].
Qed.

Lemma processed_text_of_bounded original_text :
  (len (processed_text_of original_text)
   <= ModelConfig.MAX_SUMMARY_INPUT_LENGTH + 3)%nat.
Proof.
  unfold processed_text_of, prefix, len.
  destruct (Nat.ltb_spec ModelConfig.MAX_SUMMARY_INPUT_LENGTH
              (length original_text)) as [H|H].
  - rewrite length_app, length_take.
    change (length (py "...")) with 3%nat. lia.
  - lia.
Qed.

Section Summarization.

Variable summarization_model : nat -> str -> result str.

Abbreviation summary_of := (summary_of summarization_model).
Abbreviation summary_row := (summary_row summarization_model).
Abbreviation summary_rows_from := (summary_rows_from summarization_model).
Abbreviation summary_successes_from :=
  (summary_successes_from summarization_model).

Lemma summarize_text_spec i input_text fs :
  summarize_text summarization_model i input_text fs
  = (Ok (summary_of i input_text), fs).
Proof.
  unfold summarize_text, try_except, call, summary_of,
    mbind, M_bind, bind, mret, M_ret, ret.
  by destruct (summarization_model i (prompt_prefix ++ input_text)).
Qed.

Lemma summarization_from_spec i groups st fs :
  summarization_from summarization_model i groups st fs
  = (Ok {| summaries := summaries st ++ summary_rows_from i groups;
           successful_summaries :=
             (successful_summaries st + summary_successes_from i groups)%nat;
           compression_ratios :=
             compression_ratios st
             ++ (s_compression_ratio <$> summary_rows_from i groups) |},
     fs).
Proof.
  revert i st.
  induction groups as [|[speaker original_text] rest IH]; intros i st.
  - simpl. rewrite !app_nil_r, Nat.add_0_r. by destruct st.
  - cbn [summarization_from].
    rewrite (bind_Ok _ _ _ _ _ (summarize_text_spec _ _ _)).
    destruct (summary_of i (processed_text_of original_text))
      as [summary_text success_status] eqn:E.
    rewrite IH. cbn [summaries successful_summaries compression_ratios].
    cbn [summary_rows_from summary_successes_from summary_row fst snd fmap
         list_fmap s_compression_ratio].
    rewrite E. cbn [fst snd]. rewrite <- !app_assoc. simpl.
    unfold summary_row. cbn [fst snd]. rewrite E. cbn [fst].
    match goal with
    | |- context [((if success_status then S ?a else ?a) + ?x)%nat] =>
        replace ((if success_status then S a else a) + x)%nat
          with (a + ((if success_status then 1 else 0) + x))%nat
          by (destruct success_status; lia)
    end.
    done.
Qed.

Lemma lookup_summary_rows_from i groups j group :
  groups !! j = Some group ->
  summary_rows_from i groups !! j = Some (summary_row (i + j) group).
Proof.
  revert i j. induction groups as [|g rest IH]; intros i j; [done|].
  destruct j as [|j]; simpl.
  - intros [= ->]. by rewrite Nat.add_0_r.
  - intros H. rewrite (IH (S i) j H). do 2 f_equal. lia.
Qed.

Lemma speakers_summary_rows_from i groups :
  s_speaker <$> summary_rows_from i groups = fst <$> groups.
Proof.
  revert i. induction groups as [|g rest IH]; intros i; simpl; [done|].
  by rewrite IH.
Qed.

Lemma lookup_summary_rows_from_inv i groups j r :
  summary_rows_from i groups !! j = Some r ->
  exists group, groups !! j = Some group /\ r = summary_row (i + j) group.
Proof.
  revert i j. induction groups as [|g rest IH]; intros i j; [done|].
  destruct j as [|j]; simpl.
  - intros [= <-]. exists g. by rewrite Nat.add_0_r.
  - intros H. destruct (IH (S i) j H) as (group & Hg & ->).
    exists group. split; [done|]. f_equal. lia.
Qed.

(** What the stage returns and writes, from the table it reads. *)
Lemma test_summarization_spec input_csv_path output_csv_path fs rows :
  fs !! input_csv_path = Some (CorrectionCsv rows) ->
  exists m,
    test_summarization summarization_model input_csv_path output_csv_path fs
    = (Ok (summary_rows_from 0 (speaker_texts rows), m),
       <[output_csv_path :=
           SummaryCsv (summary_rows_from 0 (speaker_texts rows))]> fs).
Proof.
  intros Hcsv. unfold test_summarization.
  erewrite bind_Ok; [|unfold read_correction_csv; by rewrite Hcsv].
  erewrite bind_Ok; [|apply summarization_from_spec].
  eexists. reflexivity.
Qed.




End Summarization.

(** ** The driver *)

Lemma temp_file_of_ends_in_wav segment : ends_in_wav (temp_file_of segment).
Proof.
  unfold ends_in_wav, temp_file_of. rewrite !app_assoc, reverse_app. done.
Qed.

Lemma not_temp_file (segments : list Segment) (path : str) :
  ~ ends_in_wav path -> path ∉ temp_file_of <$> segments.
Proof.
  intros Hpath [segment [-> _]]%list_elem_of_fmap.
  apply Hpath, temp_file_of_ends_in_wav.
Qed.

Lemma output_path_not_wav output_prefix suffix :
  take 4 (reverse suffix) <> reverse (py ".wav") ->
  (4 <= length suffix)%nat ->
  ~ ends_in_wav (output_prefix ++ suffix).
Proof.
  intros Hsuffix Hlen. unfold ends_in_wav.
  rewrite reverse_app, take_app_le by (by rewrite length_reverse).
  done.
Qed.

Lemma perform_diarization_spec diarization_pipeline
    audio_file_path output_csv_path fs audio :
  fs !! audio_file_path = Some (AudioFile audio) ->
  let segments := diarization_segments (diarization_pipeline audio) in
  let df := sort_values d_start_time segments in
  perform_diarization diarization_pipeline audio_file_path output_csv_path fs
  = match segments with
    | [] => (Ok ([], MDiarizationEmpty), fs)
    | _ :: _ =>
        (Ok (df,
             MDiarization
               {| dm_segments_count := length df;
                  dm_speakers_count := nunique (d_speaker <$> df);
                  dm_audio_duration := Qmax_list (d_end_time <$> df) |}),
         <[output_csv_path := DiarizationCsv df]> fs)
    end.
Proof.
  intros Haudio segments df. unfold perform_diarization.
  rewrite (bind_Ok _ _ _ _ _ (from_file_Ok _ _ _ Haudio)).
  fold segments. by destruct segments.
Qed.

Lemma create_meeting_minutes_spec summary_csv_path output_file_path fs rows :
  fs !! summary_csv_path = Some (SummaryCsv rows) ->
  create_meeting_minutes summary_csv_path output_file_path fs
  = (Ok tt,
     <[output_file_path :=
         MinutesTxt ((fun row => (s_speaker row, s_summary row)) <$> rows)]>
       fs).
Proof.
  intros Hcsv. unfold create_meeting_minutes.
  erewrite bind_Ok; [|unfold read_summary_csv; by rewrite Hcsv]. done.
Qed.

Lemma downstream_not_wav output_prefix suffix :
  suffix ∈ downstream_suffixes -> ~ ends_in_wav (output_prefix ++ suffix).
Proof.
  unfold downstream_suffixes. rewrite !elem_of_cons, elem_of_nil.
  intros [->|[->|[->|[->|[->|[]]]]]];
    (apply output_path_not_wav; [by vm_compute|vm_compute; lia]).
Qed.

Lemma downstream_not_diarization (output_prefix : str) suffix :
  suffix ∈ downstream_suffixes ->
  output_prefix ++ suffix <> output_prefix ++ py "_diarization.csv".
Proof.
  unfold downstream_suffixes. rewrite !elem_of_cons, elem_of_nil.
  intros [->|[->|[->|[->|[->|[]]]]]] H%app_inv_head; done.
Qed.

Section Driver.

Variable diarization_pipeline : AudioSegment -> list Turn.
Variable getitem : AudioSegment -> Z -> Z -> AudioSegment.
Variable export_model : nat -> AudioSegment -> export_result.
Variable asr_pipeline : nat -> AudioSegment -> result str.
Variable correction_model : nat -> str -> result str.
Variable summarization_model : nat -> str -> result str.


End Driver.

(** ** A run on concrete inputs *)

Lemma C7_witness :
  ex_fs !! py "in.wav" = Some (AudioFile ex_audio)
  /\ exists df m fs',
       perform_diarization ex_diarization (py "in.wav") (py "d.csv") ex_fs
       = (Ok (df, m), fs')
       /\ df ≡ₚ row_of_turn <$> filter long_enough (ex_diarization ex_audio)
       /\ Forall valid_segment df
       /\ ascending d_start_time df
       /\ (df <> [] -> fs' = <[py "d.csv" := DiarizationCsv df]> ex_fs)
       /\ (df = [] -> fs' = ex_fs).
Proof.
  split; [vm_compute; reflexivity|].
  apply (C7_diarization_segments ex_diarization (py "in.wav") (py "d.csv")
           ex_fs ex_audio).
  vm_compute; reflexivity.
Defined.

Lemma C6_witness :
  ex_fs_diarized !! py "in.wav" = Some (AudioFile ex_audio)
  /\ ex_fs_diarized !! py "d.csv" = Some (DiarizationCsv ex_diarization_table)
  /\ exists df m fs',
       perform_speech_recognition ex_getitem ex_export ex_asr
         (py "in.wav") (py "d.csv") (py "a.csv") ex_fs_diarized
       = (Ok (df, m), fs')
       /\ Forall valid_asr_row df
       /\ ascending a_start_time df
       /\ (df <> [] -> fs' !! py "a.csv" = Some (AsrCsv df)).
Proof.
  split; [vm_compute; reflexivity|].
  split; [vm_compute; reflexivity|].
  apply (C6_recognition_rows ex_getitem ex_export ex_asr
           (py "in.wav") (py "d.csv") (py "a.csv") ex_fs_diarized ex_audio
           ex_diarization_table);
    vm_compute; reflexivity.
Defined.

Lemma C10_witness :
  ex_fs_diarized !! py "in.wav" = Some (AudioFile ex_audio)
  /\ ex_fs_diarized !! py "d.csv" = Some (DiarizationCsv ex_diarization_table)
  /\ perform_speech_recognition ex_getitem ex_export ex_asr
       (py "in.wav") (py "d.csv") (py "a.csv") ex_fs_diarized
     = (Ok (ex_recognition_table, ex_recognition_metrics),
        <[py "a.csv" := AsrCsv ex_recognition_table]> ex_fs_diarized)
  /\ ex_recognition_table <> []
  /\ exists am,
       ex_recognition_metrics = MAsr am
       /\ am_segments_processed am = length ex_diarization_table
       /\ am_segments_with_speech am = length ex_recognition_table
       /\ am_success_rate am
          = true_div (length ex_recognition_table)
                     (length ex_diarization_table)
       /\ (length ex_recognition_table
           + count_outcomes ex_export ex_asr NoSpeech 0
               (segment_of ex_getitem ex_audio
                  <$> iterrows ex_diarization_table)
           + count_outcomes ex_export ex_asr Failed 0
               (segment_of ex_getitem ex_audio
                  <$> iterrows ex_diarization_table)
           = length ex_diarization_table)%nat.
Proof.
  split; [vm_compute; reflexivity|].
  split; [vm_compute; reflexivity|].
  split; [vm_compute; reflexivity|].
  split; [discriminate|].
  apply (C10_recognition_success_rate ex_getitem ex_export ex_asr
           (py "in.wav") (py "d.csv") (py "a.csv") ex_fs_diarized ex_audio
           ex_diarization_table ex_recognition_table ex_recognition_metrics
           (<[py "a.csv" := AsrCsv ex_recognition_table]> ex_fs_diarized));
    [vm_compute; reflexivity..|discriminate].
Defined.



(** The example of the specification: the one row "helo wrld", a correction
    call that fails; the row comes out with [corrected_text] equal to its
    text, and [success_rate] is 0. *)
Example helo_wrld_correction :
  test_correction failing_correction (py "a.csv") (py "c.csv")
    ex_fs_recognized
  = (Ok ([ {| c_row := {| a_speaker := py "A"; a_start_time := 0;
                          a_end_time := 1; a_duration := 1;
                          a_text := py "helo wrld"; a_word_count := 2 |};
              c_corrected_text := py "helo wrld" |} ],
         MCorrection {| cm_segments_count := 1;
                        cm_successful_corrections := 0;
                        cm_success_rate := 0;
                        cm_total_characters_processed := 9 |}),
     <[py "c.csv" :=
         CorrectionCsv
           [ {| c_row := {| a_speaker := py "A"; a_start_time := 0;
                            a_end_time := 1; a_duration := 1;
                            a_text := py "helo wrld"; a_word_count := 2 |};
                c_corrected_text := py "helo wrld" |} ]]>
       ex_fs_recognized).
Proof. vm_compute. reflexivity. Qed.




(** A text of 2500 characters is handed over as its first 2000 characters
    and ["..."]. *)
Example processed_text_of_2500 :
  processed_text_of (replicate 2500 97%N) = replicate 2000 97%N ++ py "...".
Proof. vm_compute. reflexivity. Qed.


(** No track: the driver returns the ["diarization"] entry and leaves the
    files as they were. *)
Example run_without_tracks :
  run_complete_pipeline silent_diarization ex_getitem ex_export ex_asr
    failing_correction ex_summarization (py "in.wav") (py "t") ex_fs
  = (Ok {[ py "diarization" := MDiarizationEmpty ]}, ex_fs).
Proof. vm_compute. reflexivity. Qed.

(** No speech: the driver returns the ["diarization"] and ["asr"] entries;
    the diarization table is the one file it leaves behind. *)
Example run_without_speech :
  run_complete_pipeline ex_diarization ex_getitem ex_export placeholder_asr
    failing_correction ex_summarization (py "in.wav") (py "t") ex_fs
  = (Ok (<[ py "asr" := MAsrEmpty 3 ]>
           {[ py "diarization" :=
                MDiarization {| dm_segments_count := 3;
                                dm_speakers_count := 2;
                                dm_audio_duration := 4 |} ]}),
     <[ py "t_diarization.csv" := DiarizationCsv ex_diarization_table ]>
       ex_fs).
Proof. vm_compute. reflexivity. Qed.

(** ** The exact sample range *)


(** * Further properties of the stages *)

(** ** The metrics of the diarization stage *)

Lemma foldl_max_spec (m : Q) (l : list Q) :
  (m <= foldl (fun m y => if Qle_bool m y then y else m) m l)%Q
  /\ Forall (fun y =>
               (y <= foldl (fun m y => if Qle_bool m y then y else m) m l)%Q) l
  /\ foldl (fun m y => if Qle_bool m y then y else m) m l ∈ m :: l.
Proof.
  revert m. induction l as [|y l IH]; intros m; simpl.
  - split; [apply Qle_refl|]. split; [constructor|left].
  - destruct (IH (if Qle_bool m y then y else m)) as (Hm & Hl & Hin).
    destruct (Qle_bool m y) eqn:E.
    + apply Qle_bool_iff in E. split; [by eapply Qle_trans|].
      split; [by constructor|].
      apply elem_of_cons in Hin as [->|Hin]; [right; left|by do 2 right].
    + assert (y <= m)%Q as Hym.
      { destruct (Qlt_le_dec m y) as [H|H]; [|done].
        apply Qlt_le_weak, Qle_bool_iff in H. congruence. }
      split; [done|]. split; [constructor; [by eapply Qle_trans|done]|].
      apply elem_of_cons in Hin as [->|Hin]; [left|by do 2 right].
Qed.

Lemma Qmax_list_spec (x : Q) (l : list Q) :
  Forall (fun y => (y <= Qmax_list (x :: l))%Q) (x :: l)
  /\ Qmax_list (x :: l) ∈ x :: l.
Proof.
  unfold Qmax_list. destruct (foldl_max_spec x l) as (Hx & Hl & Hin).
  split; [by constructor|done].
Qed.

Lemma nunique_le_length (l : list str) : (nunique l <= length l)%nat.
Proof.
  unfold nunique. induction l as [|x l IH]; simpl; [done|].
  destruct (decide_rel elem_of x l); simpl; lia.
Qed.

Lemma nunique_mono (l k : list str) :
  (forall x, x ∈ l -> x ∈ k) -> (nunique l <= nunique k)%nat.
Proof.
  intros Hsub. unfold nunique. apply submseteq_length, NoDup_submseteq.
  - apply NoDup_remove_dups.
  - intros x. rewrite !elem_of_remove_dups. apply Hsub.
Qed.

Lemma nunique_pos (x : str) (l : list str) : (1 <= nunique (x :: l))%nat.
Proof.
  unfold nunique.
  assert (x ∈ remove_dups (x :: l)) as Hin
    by (apply elem_of_remove_dups; left).
  destruct (remove_dups (x :: l)); [by apply elem_of_nil in Hin|simpl; lia].
Qed.

Section DiarizationMetrics.

Variable diarization_pipeline : AudioSegment -> list Turn.

(** X1. The diarization stage returns the metrics of a table with rows
    exactly when its table has rows.  Then [segments_count] is the number
    of rows, [speakers_count] lies between 1 and [segments_count], and
    [audio_duration] is the largest [end_time] of the table: no row ends
    later, and some row ends at that time. *)
Theorem X1_diarization_metrics audio_file_path output_csv_path fs audio :
  fs !! audio_file_path = Some (AudioFile audio) ->
  exists df m fs',
    perform_diarization diarization_pipeline audio_file_path output_csv_path fs
    = (Ok (df, m), fs')
    /\ match m with
       | MDiarization dm =>
           df <> []
           /\ dm_segments_count dm = length df
           /\ (1 <= dm_speakers_count dm <= dm_segments_count dm)%nat
           /\ Forall (fun r => (d_end_time r <= dm_audio_duration dm)%Q) df
           /\ (exists r, r ∈ df /\ dm_audio_duration dm = d_end_time r)
       | MDiarizationEmpty => df = []
       | _ => False
       end.
Proof.
  intros Haudio.
  pose proof (perform_diarization_spec diarization_pipeline _ output_csv_path
                _ _ Haudio) as Hrun.
  cbv zeta in Hrun.
  destruct (diarization_segments (diarization_pipeline audio))
    as [|seg segs] eqn:Esegs.
  { eexists _, _, _. split; [exact Hrun|]. done. }
  destruct (sort_values d_start_time (seg :: segs)) as [|r df] eqn:Edf;
    [by apply sort_values_nil_inv in Edf|].
  eexists _, _, _. split; [exact Hrun|].
  cbn [dm_segments_count dm_speakers_count dm_audio_duration].
  split; [done|]. split; [done|].
  split.
  { split; [rewrite fmap_cons; apply nunique_pos|].
    etransitivity; [apply nunique_le_length|]. by rewrite length_fmap. }
  destruct (Qmax_list_spec (d_end_time r) (d_end_time <$> df)) as [Hle Hin].
  rewrite <- fmap_cons in Hle, Hin. split.
  - apply Forall_forall. intros r0 Hr0. rewrite Forall_forall in Hle.
    apply Hle. by apply list_elem_of_fmap_2.
  - apply list_elem_of_fmap in Hin as (r0 & Heq & Hr0). by exists r0.
Qed.

End DiarizationMetrics.

(** ** Where the rows of the recognition table come from *)

Lemma snd_iterrows {A} (df : list A) : (iterrows df).*2 = df.
Proof. unfold iterrows. apply snd_zip. by rewrite length_seq. Qed.

Lemma strip_trimmed (s : str) : strip s <> [] -> trimmed (strip s).
Proof.
  intros Hne. split.
  - pose proof (strip_no_lead s) as H.
    destruct (strip s) as [|c rest]; [done|]. by exists c, rest.
  - assert (no_lead (rev (strip s))) as H.
    { unfold strip, rstrip. rewrite rev_involutive. apply lstrip_no_lead. }
    destruct (rev (strip s)) as [|c rest] eqn:E.
    + apply (f_equal (@rev N)) in E. rewrite rev_involutive in E. done.
    + apply (f_equal (@rev N)) in E. rewrite rev_involutive in E.
      simpl in E. by exists (rev rest), c.
Qed.

Lemma length_le_sum_list {A} (f : A -> nat) (l : list A) :
  Forall (fun x => (1 <= f x)%nat) l -> (length l <= sum_list (f <$> l))%nat.
Proof.
  induction 1 as [|x l Hx _ IH]; simpl; [lia|].
  change (list_fmap A nat f l) with (f <$> l). lia.
Qed.

Lemma count_word_starts_pos (c : N) (rest : str) :
  isspace c = false -> (1 <= count_word_starts true (c :: rest))%nat.
Proof. intros H. simpl. rewrite H. lia. Qed.

Section RecognitionRows.

Variable getitem : AudioSegment -> Z -> Z -> AudioSegment.
Variable export_model : nat -> AudioSegment -> export_result.
Variable asr_pipeline : nat -> AudioSegment -> result str.

Abbreviation segment_of := (segment_of getitem).
Abbreviation attempt_row := (attempt_row export_model asr_pipeline).
Abbreviation attempt_rows := (attempt_rows export_model asr_pipeline).

Lemma attempt_row_source i segment r :
  attempt_row i segment = Some r -> asr_source r = segment_source segment.
Proof.
  unfold attempt_row.
  destruct (export_model _ _); [|done].
  destruct (asr_pipeline _ _) as [raw|]; [|done].
  destruct (has_speech _); [|done]. by intros [= <-].
Qed.

Lemma attempt_rows_sublist i segments :
  asr_source <$> attempt_rows i segments
  `sublist_of` segment_source <$> segments.
Proof.
  revert i. induction segments as [|segment rest IH]; intros i; simpl.
  - constructor.
  - destruct (attempt_row i segment) as [r|] eqn:E; simpl.
    + rewrite (attempt_row_source _ _ _ E). by constructor.
    + by constructor.
Qed.

Lemma segment_source_segment_of audio (ddf : list DiarizationRow) :
  segment_source <$> (segment_of audio <$> iterrows ddf) = ddf.
Proof.
  rewrite <- list_fmap_compose. rewrite <- (snd_iterrows ddf) at 2.
  apply list_fmap_ext. intros _ [index [speaker s e d]] _. done.
Qed.

(** The rows of the recognition table, without their texts, are rows of the
    diarization table, each used once at most. *)
Lemma recognition_rows_source audio (ddf : list DiarizationRow) :
  asr_source
    <$> sort_values a_start_time
          (attempt_rows 0 (segment_of audio <$> iterrows ddf))
  ⊆+ ddf.
Proof.
  rewrite sort_values_perm. apply sublist_submseteq.
  rewrite <- (segment_source_segment_of audio ddf) at 2.
  apply attempt_rows_sublist.
Qed.

(** X2. The recognition stage invents no segment and repeats none: the
    speaker, start, end and duration of the rows of its table are those of
    rows of the diarization table it read, each taken once at most.  Its
    metrics are those of a table with rows exactly when its table has rows;
    then [segments_processed] is the number of diarization rows,
    [segments_with_speech] the number of rows of the table, and
    [speakers_count] is at most the number of speakers of the diarization
    table. *)
Theorem X2_recognition_rows_from_diarization
    audio_file_path diarization_csv_path output_csv_path fs audio ddf :
  fs !! audio_file_path = Some (AudioFile audio) ->
  fs !! diarization_csv_path = Some (DiarizationCsv ddf) ->
  exists df m fs',
    perform_speech_recognition getitem export_model asr_pipeline
      audio_file_path diarization_csv_path output_csv_path fs
    = (Ok (df, m), fs')
    /\ asr_source <$> df ⊆+ ddf
    /\ match m with
       | MAsr am =>
           df <> []
           /\ am_segments_processed am = length ddf
           /\ am_segments_with_speech am = length df
           /\ (am_speakers_count am <= nunique (d_speaker <$> ddf))%nat
       | MAsrEmpty segments_processed =>
           df = [] /\ segments_processed = length ddf
       | _ => False
       end.
Proof.
  intros Haudio Hcsv.
  rewrite (perform_speech_recognition_spec _ _ _ _ _ _ _ _ _ Haudio Hcsv).
  pose proof (recognition_rows_source audio ddf) as Hsource.
  set (segments := segment_of audio <$> iterrows ddf) in *.
  assert (length segments = length ddf) as Hlen
    by (subst segments; by rewrite length_fmap, length_iterrows).
  destruct (attempt_rows 0 segments) as [|r0 rows0] eqn:Erows.
  { eexists [], _, _. split; [reflexivity|]. split; [|done].
    apply submseteq_nil_l. }
  destruct (sort_values a_start_time (r0 :: rows0)) as [|r df] eqn:Edf;
    [by apply sort_values_nil_inv in Edf|].
  eexists _, _, _. split; [reflexivity|]. split; [done|].
  cbn [am_segments_processed am_segments_with_speech am_speakers_count].
  split; [done|]. split; [done|]. split; [done|].
  apply nunique_mono. intros speaker Hin.
  apply list_elem_of_fmap in Hin as (row & -> & Hrow).
  assert (asr_source row ∈ ddf) as Hddf.
  { eapply elem_of_submseteq; [|exact Hsource]. by apply list_elem_of_fmap_2. }
  by apply (list_elem_of_fmap_2 d_speaker) in Hddf.
Qed.

Lemma attempt_rows_trimmed i segments :
  Forall (fun r => trimmed (a_text r) /\ (1 <= a_word_count r)%nat)
         (attempt_rows i segments).
Proof.
  revert i. induction segments as [|segment rest IH]; intros i; simpl.
  - constructor.
  - apply Forall_app. split; [|apply IH].
    unfold attempt_row.
    destruct (export_model _ _); [|constructor].
    destruct (asr_pipeline _ _) as [raw|]; [|constructor].
    destruct (has_speech (strip raw)) eqn:E; [|constructor].
    constructor; [|constructor]. simpl.
    apply has_speech_spec in E as (Hne & _).
    pose proof (strip_trimmed raw Hne) as Htrim. split; [done|].
    destruct Htrim as [(c & tail & -> & Hc) _].
    rewrite length_split. by apply count_word_starts_pos.
Qed.

(** X3. No text of the recognition table starts or ends with a whitespace
    character, and every row counts one word at least; so [total_words],
    the sum of the [word_count] column, is at least the number of rows. *)
Theorem X3_recognition_texts_trimmed
    audio_file_path diarization_csv_path output_csv_path fs audio ddf :
  fs !! audio_file_path = Some (AudioFile audio) ->
  fs !! diarization_csv_path = Some (DiarizationCsv ddf) ->
  exists df m fs',
    perform_speech_recognition getitem export_model asr_pipeline
      audio_file_path diarization_csv_path output_csv_path fs
    = (Ok (df, m), fs')
    /\ Forall (fun r => trimmed (a_text r) /\ (1 <= a_word_count r)%nat) df
    /\ forall am,
         m = MAsr am ->
         am_total_words am = sum_list (a_word_count <$> df)
         /\ (am_segments_with_speech am <= am_total_words am)%nat.
Proof.
  intros Haudio Hcsv.
  rewrite (perform_speech_recognition_spec _ _ _ _ _ _ _ _ _ Haudio Hcsv).
  set (segments := segment_of audio <$> iterrows ddf).
  pose proof (attempt_rows_trimmed 0 segments) as Hrows.
  destruct (attempt_rows 0 segments) as [|r0 rows0] eqn:Erows.
  { eexists [], _, _. split; [reflexivity|]. split; [constructor|done]. }
  rewrite <- Erows in *. clear Erows.
  assert (Forall (fun r => trimmed (a_text r) /\ (1 <= a_word_count r)%nat)
            (sort_values a_start_time (attempt_rows 0 segments))) as Hdf
    by (by rewrite sort_values_perm).
  eexists _, _, _. split; [reflexivity|]. split; [exact Hdf|].
  intros am [= <-]. cbn [am_total_words am_segments_with_speech].
  split; [done|].
  apply length_le_sum_list. eapply Forall_impl; [exact Hdf|].
  by intros r [_ Hr].
Qed.

End RecognitionRows.

(** ** The files a run leaves alone *)

Lemma preserves_mono {A} (P Q : str -> Prop) (m : M A) :
  (forall path, P path -> Q path) -> preserves P m -> preserves Q m.
Proof. intros HPQ Hm fs path Hpath. apply Hm. auto. Qed.

Lemma preserves_ret {A} (P : str -> Prop) (a : A) : preserves P (mret a).
Proof. by intros fs path _. Qed.

Lemma preserves_raise {A} (P : str -> Prop) e : preserves P (@raise A e).
Proof. by intros fs path _. Qed.

Lemma preserves_call {A} (P : str -> Prop) (r : result A) :
  preserves P (call r).
Proof. by intros fs path _. Qed.

Lemma preserves_bind {A B} (P : str -> Prop) (m : M A) (k : A -> M B) :
  preserves P m -> (forall a, preserves P (k a)) -> preserves P (m ≫= k).
Proof.
  intros Hm Hk fs path Hpath. unfold mbind, M_bind, bind.
  specialize (Hm fs path Hpath). destruct (m fs) as [[a|e] fs1]; simpl in *.
  - by rewrite (Hk a fs1 path Hpath).
  - done.
Qed.

Lemma preserves_try_except {A} (P : str -> Prop) (body : M A) handler :
  preserves P body -> (forall e, preserves P (handler e)) ->
  preserves P (try_except body handler).
Proof.
  intros Hbody Hhandler fs path Hpath. unfold try_except.
  specialize (Hbody fs path Hpath).
  destruct (body fs) as [[a|e] fs1]; simpl in *; [done|].
  by rewrite (Hhandler e fs1 path Hpath).
Qed.

Lemma preserves_try_finally {A} (P : str -> Prop) (body : M A) finalizer :
  preserves P body -> preserves P finalizer ->
  preserves P (try_finally body finalizer).
Proof.
  intros Hbody Hfinal fs path Hpath. unfold try_finally.
  specialize (Hbody fs path Hpath). destruct (body fs) as [r fs1].
  specialize (Hfinal fs1 path Hpath).
  destruct (finalizer fs1) as [[u|e] fs2]; simpl in *; congruence.
Qed.

Lemma preserves_write_file (P : str -> Prop) (path : str) (f : file) :
  P path -> preserves P (write_file path f).
Proof.
  intros HP fs other Hother. unfold write_file. simpl.
  apply lookup_insert_ne. by intros ->.
Qed.

Lemma preserves_remove (P : str -> Prop) (path : str) :
  P path -> preserves P (remove path).
Proof.
  intros HP fs other Hother. unfold remove.
  destruct (fs !! path); simpl; [|done].
  apply lookup_delete_ne. by intros ->.
Qed.

Lemma preserves_path_exists (P : str -> Prop) (path : str) :
  preserves P (path_exists path).
Proof. by intros fs other _. Qed.

Lemma preserves_from_file (P : str -> Prop) (path : str) :
  preserves P (from_file path).
Proof.
  intros fs other _. unfold from_file. by destruct (fs !! path) as [[]|].
Qed.

Lemma preserves_read_diarization_csv (P : str -> Prop) (path : str) :
  preserves P (read_diarization_csv path).
Proof.
  intros fs other _. unfold read_diarization_csv.
  by destruct (fs !! path) as [[]|].
Qed.

Lemma preserves_read_asr_csv (P : str -> Prop) (path : str) :
  preserves P (read_asr_csv path).
Proof.
  intros fs other _. unfold read_asr_csv. by destruct (fs !! path) as [[]|].
Qed.

Lemma preserves_read_correction_csv (P : str -> Prop) (path : str) :
  preserves P (read_correction_csv path).
Proof.
  intros fs other _. unfold read_correction_csv.
  by destruct (fs !! path) as [[]|].
Qed.

Lemma preserves_read_summary_csv (P : str -> Prop) (path : str) :
  preserves P (read_summary_csv path).
Proof.
  intros fs other _. unfold read_summary_csv.
  by destruct (fs !! path) as [[]|].
Qed.

Lemma temp_file_of_is_temp_name segment : is_temp_name (temp_file_of segment).
Proof. by exists (seg_speaker segment), (seg_segment_index segment). Qed.

Lemma elem_of_driver_outputs (output_prefix suffix : str) :
  suffix ∈ [py "_diarization.csv"; py "_asr.csv"; py "_correction.csv";
            py "_summarization.csv"; py "_meeting_minutes.txt";
            py "_metrics.json"] ->
  output_prefix ++ suffix ∈ driver_outputs output_prefix.
Proof. intros H. unfold driver_outputs. by apply list_elem_of_fmap_2. Qed.

Section Frame.

Variable diarization_pipeline : AudioSegment -> list Turn.
Variable getitem : AudioSegment -> Z -> Z -> AudioSegment.
Variable export_model : nat -> AudioSegment -> export_result.
Variable asr_pipeline : nat -> AudioSegment -> result str.
Variable correction_model : nat -> str -> result str.
Variable summarization_model : nat -> str -> result str.

Lemma preserves_perform_diarization audio_file_path output_csv_path :
  preserves (eq output_csv_path)
    (perform_diarization diarization_pipeline audio_file_path
       output_csv_path).
Proof.
  unfold perform_diarization.
  apply preserves_bind; [apply preserves_from_file|]. intros audio.
  destruct (diarization_segments (diarization_pipeline audio)).
  - apply preserves_ret.
  - apply preserves_bind; [by apply preserves_write_file|].
    intros _. apply preserves_ret.
Qed.

Lemma preserves_transcribe_segment i segment results :
  preserves is_temp_name
    (transcribe_segment export_model asr_pipeline i segment results).
Proof.
  pose proof (temp_file_of_is_temp_name segment) as Htemp.
  unfold transcribe_segment.
  apply preserves_try_finally.
  - apply preserves_try_except; [|intros e; apply preserves_ret].
    apply preserves_bind.
    + unfold export. destruct (export_model _ _) as [|e [|]].
      * by apply preserves_write_file.
      * apply preserves_bind; [by apply preserves_write_file|].
        intros _. apply preserves_raise.
      * apply preserves_raise.
    + intros _. apply preserves_bind.
      * unfold asr_text. apply preserves_bind; [apply preserves_from_file|].
        intros audio. apply preserves_call.
      * intros raw. destruct (has_speech (strip raw)); apply preserves_ret.
  - apply preserves_bind; [apply preserves_path_exists|].
    intros [|]; [by apply preserves_remove|apply preserves_ret].
Qed.

Lemma preserves_transcribe_from i segments results :
  preserves is_temp_name
    (transcribe_from export_model asr_pipeline i segments results).
Proof.
  revert i results.
  induction segments as [|segment rest IH]; intros i results; simpl.
  - apply preserves_ret.
  - apply preserves_bind; [apply preserves_transcribe_segment|].
    intros results'. apply IH.
Qed.

Lemma preserves_perform_speech_recognition
    audio_file_path diarization_csv_path output_csv_path :
  preserves (fun path => path = output_csv_path \/ is_temp_name path)
    (perform_speech_recognition getitem export_model asr_pipeline
       audio_file_path diarization_csv_path output_csv_path).
Proof.
  unfold perform_speech_recognition.
  apply preserves_bind; [apply preserves_read_diarization_csv|].
  intros ddf. apply preserves_bind.
  { unfold extract_audio_segments.
    apply preserves_bind; [apply preserves_from_file|].
    intros audio. apply preserves_ret. }
  intros segments. apply preserves_bind.
  { eapply preserves_mono; [|apply preserves_transcribe_from]. auto. }
  intros [|r rows]; [apply preserves_ret|].
  apply preserves_bind; [apply preserves_write_file; by left|].
  intros _. apply preserves_ret.
Qed.

Lemma preserves_correction_from i texts corrected_texts successful :
  preserves (fun _ => False)
    (correction_from correction_model i texts corrected_texts successful).
Proof.
  revert i corrected_texts successful.
  induction texts as [|text rest IH]; intros i corrected_texts successful;
    simpl.
  - apply preserves_ret.
  - apply preserves_bind.
    + unfold correct_text. apply preserves_try_except.
      * apply preserves_bind; [apply preserves_call|].
        intros corrected. apply preserves_ret.
      * intros e. apply preserves_ret.
    + intros [corrected success]. apply IH.
Qed.

Lemma preserves_test_correction input_csv_path output_csv_path :
  preserves (eq output_csv_path)
    (test_correction correction_model input_csv_path output_csv_path).
Proof.
  unfold test_correction.
  apply preserves_bind; [apply preserves_read_asr_csv|]. intros rows.
  apply preserves_bind.
  { eapply preserves_mono; [|apply preserves_correction_from]. done. }
  intros [corrected_texts successful]. apply preserves_bind.
  { unfold assign_corrected_text.
    destruct (decide _); [apply preserves_ret|apply preserves_raise]. }
  intros df. apply preserves_bind; [by apply preserves_write_file|].
  intros _. apply preserves_ret.
Qed.

Lemma preserves_summarization_from i groups st :
  preserves (fun _ => False)
    (summarization_from summarization_model i groups st).
Proof.
  revert i st.
  induction groups as [|[speaker text] rest IH]; intros i st; simpl.
  - apply preserves_ret.
  - apply preserves_bind.
    + unfold summarize_text. apply preserves_try_except.
      * apply preserves_bind; [apply preserves_call|].
        intros summary. apply preserves_ret.
      * intros e. apply preserves_ret.
    + intros [summary success]. apply IH.
Qed.

Lemma preserves_test_summarization input_csv_path output_csv_path :
  preserves (eq output_csv_path)
    (test_summarization summarization_model input_csv_path output_csv_path).
Proof.
  unfold test_summarization.
  apply preserves_bind; [apply preserves_read_correction_csv|]. intros rows.
  apply preserves_bind.
  { eapply preserves_mono; [|apply preserves_summarization_from]. done. }
  intros st. apply preserves_bind; [by apply preserves_write_file|].
  intros _. apply preserves_ret.
Qed.

Lemma preserves_create_meeting_minutes summary_csv_path output_file_path :
  preserves (eq output_file_path)
    (create_meeting_minutes summary_csv_path output_file_path).
Proof.
  unfold create_meeting_minutes.
  apply preserves_bind; [apply preserves_read_summary_csv|]. intros rows.
  by apply preserves_write_file.
Qed.

(** X4. A run of the driver, whether it returns or raises, leaves every
    file as it was except the six files it writes for its prefix and the
    files that bear the name of a temporary file,
    [temp_<speaker>_<index>.wav]: whatever the models return or raise,
    the stages themselves create, change or delete no other file. *)
Theorem X4_driver_leaves_other_files
    audio_file_path output_prefix fs path :
  path ∉ driver_outputs output_prefix ->
  ~ is_temp_name path ->
  (run_complete_pipeline diarization_pipeline getitem export_model
     asr_pipeline correction_model summarization_model
     audio_file_path output_prefix fs).2 !! path
  = fs !! path.
Proof.
  intros Hout Htemp.
  enough (preserves
            (fun path => path ∈ driver_outputs output_prefix
                         \/ is_temp_name path)
            (run_complete_pipeline diarization_pipeline getitem export_model
               asr_pipeline correction_model summarization_model
               audio_file_path output_prefix)) as H
    by (apply H; tauto).
  unfold run_complete_pipeline.
  apply preserves_bind.
  { eapply preserves_mono; [|apply preserves_perform_diarization].
    intros p <-. left. apply elem_of_driver_outputs. set_solver. }
  intros [[|drow ddf] dm]; [apply preserves_ret|].
  apply preserves_bind.
  { eapply preserves_mono; [|apply preserves_perform_speech_recognition].
    intros p [->|Hp]; [left|by right].
    apply elem_of_driver_outputs. set_solver. }
  intros [[|arow adf] am]; [apply preserves_ret|].
  apply preserves_bind.
  { eapply preserves_mono; [|apply preserves_test_correction].
    intros p <-. left. apply elem_of_driver_outputs. set_solver. }
  intros [cdf cm]. apply preserves_bind.
  { eapply preserves_mono; [|apply preserves_test_summarization].
    intros p <-. left. apply elem_of_driver_outputs. set_solver. }
  intros [sdf sm]. apply preserves_bind.
  { eapply preserves_mono; [|apply preserves_create_meeting_minutes].
    intros p <-. left. apply elem_of_driver_outputs. set_solver. }
  intros _. apply preserves_bind.
  { apply preserves_write_file. left. apply elem_of_driver_outputs.
    set_solver. }
  intros _. apply preserves_ret.
Qed.

End Frame.

(** ** The metrics of the correction stage *)

Lemma Zpos_of_nat (b : nat) :
  (0 < b)%nat -> Z.pos (Pos.of_nat b) = Z.of_nat b.
Proof.
  intros Hb. rewrite <- positive_nat_Z. f_equal. apply Nat2Pos.id. lia.
Qed.

Lemma true_div_Qmake (a b : nat) :
  (0 < b)%nat -> true_div a b == Z.of_nat a # Pos.of_nat b.
Proof.
  intros Hb. unfold true_div. rewrite Qmake_Qdiv.
  by rewrite (Zpos_of_nat b Hb).
Qed.

(** A rate [a / b if b > 0 else 0] with [a <= b] lies between 0 and 1, and
    is 1 only when [b > 0] and [a = b]. *)
Lemma rate_bounds (a b : nat) :
  (a <= b)%nat ->
  (0 <= (if (0 <? b)%nat then true_div a b else 0%Q))%Q
  /\ ((if (0 <? b)%nat then true_div a b else 0%Q) <= 1)%Q
  /\ ((if (0 <? b)%nat then true_div a b else 0%Q) == 1
      <-> (0 < b)%nat /\ a = b).
Proof.
  intros Hab. destruct (Nat.ltb_spec 0 b) as [Hb|Hb].
  - rewrite (true_div_Qmake a b Hb).
    pose proof (Zpos_of_nat b Hb) as Hpos.
    unfold Qle, Qeq. simpl. rewrite Hpos.
    split; [lia|]. split; [lia|]. split; [intros H; split; lia|].
    intros [_ ->]. lia.
  - split; [done|]. split; [done|]. split; [done|]. intros [H _]. lia.
Qed.

Section CorrectionMetrics.

Variable correction_model : nat -> str -> result str.

Abbreviation succeeded := (succeeded correction_model).
Abbreviation successes_from := (successes_from correction_model).

Lemma successes_from_le i texts :
  (successes_from i texts <= length texts)%nat.
Proof.
  revert i. induction texts as [|t rest IH]; intros i; simpl; [lia|].
  specialize (IH (S i)). destruct (succeeded i t); lia.
Qed.

Lemma successes_from_all i texts :
  successes_from i texts = length texts
  <-> forall j text, texts !! j = Some text -> succeeded (i + j) text = true.
Proof.
  revert i. induction texts as [|t rest IH]; intros i; simpl.
  - split; [by intros _ j text|done].
  - pose proof (successes_from_le (S i) rest) as Hle. split.
    + intros Hall [|j] text; simpl.
      * intros [= ->]. rewrite Nat.add_0_r.
        destruct (succeeded i text); [done|lia].
      * intros Hj. replace (i + S j)%nat with (S i + j)%nat by lia.
        apply (proj1 (IH (S i))); [|done].
        destruct (succeeded i t); lia.
    + intros Hall.
      assert (succeeded i t = true) as ->
        by (rewrite <- (Nat.add_0_r i); by apply (Hall 0%nat)).
      f_equal. apply IH. intros j text Hj.
      replace (S i + j)%nat with (i + S j)%nat by lia. by apply (Hall (S j)).
Qed.


End CorrectionMetrics.

(** ** The summaries and the metrics of the summarization stage *)

Lemma max_input_ge_200 : (200 <= ModelConfig.MAX_SUMMARY_INPUT_LENGTH)%nat.
Proof. unfold ModelConfig.MAX_SUMMARY_INPUT_LENGTH. lia. Qed.

(** The first 200 characters of the text handed to the model are those of
    the whole text. *)
Lemma take_200_processed_text_of (text : str) :
  take 200 (processed_text_of text) = take 200 text.
Proof.
  pose proof max_input_ge_200 as Hmax.
  unfold processed_text_of, prefix, len.
  destruct (Nat.ltb_spec ModelConfig.MAX_SUMMARY_INPUT_LENGTH (length text))
    as [Hlong|Hshort]; [|done].
  rewrite take_app_le by (rewrite length_take; lia).
  rewrite take_take. by rewrite Nat.min_l by lia.
Qed.

Lemma length_join (sep : str) (parts : list str) :
  parts <> [] ->
  (length (join sep parts) + length sep
   = sum_list (length <$> parts) + length parts * length sep)%nat.
Proof.
  induction parts as [|p ps IH]; [done|]. intros _.
  destruct ps as [|q ps].
  - simpl. lia.
  - assert (q :: ps <> []) as Hne by done. specialize (IH Hne).
    change (join sep (p :: q :: ps)) with (p ++ sep ++ join sep (q :: ps)).
    rewrite !length_app. rewrite !fmap_cons in *. simpl in *. lia.
Qed.

Lemma sum_list_fmap_add {A} (f g : A -> nat) (l : list A) :
  sum_list ((fun x => f x + g x)%nat <$> l)
  = (sum_list (f <$> l) + sum_list (g <$> l))%nat.
Proof.
  induction l as [|x l IH]; [done|]. rewrite !fmap_cons. simpl.
  change (list_fmap A nat ?h l) with (h <$> l) in *. lia.
Qed.

Lemma sum_list_fmap_const {A} (c : nat) (l : list A) :
  sum_list ((fun _ => c) <$> l) = (length l * c)%nat.
Proof.
  induction l as [|x l IH]; [done|]. rewrite fmap_cons. simpl.
  change (list_fmap A nat ?h l) with (h <$> l) in *. lia.
Qed.

Lemma sum_indicator (keys : list str) (x : str) (c : nat) :
  NoDup keys -> x ∈ keys ->
  sum_list ((fun k => if decide (x = k) then c else 0%nat) <$> keys) = c.
Proof.
  induction 1 as [|k keys Hk Hnodup IH]; intros Hin.
  - by apply elem_of_nil in Hin.
  - rewrite fmap_cons. simpl.
    change (list_fmap _ nat ?h keys) with (h <$> keys) in *.
    destruct (decide (x = k)) as [->|Hne].
    + assert (sum_list ((fun k0 => if decide (k = k0) then c else 0%nat)
                          <$> keys) = 0%nat) as ->; [|lia].
      clear IH Hin Hnodup. induction keys as [|k' keys IH]; [done|].
      rewrite fmap_cons. simpl.
      change (list_fmap _ nat ?h keys) with (h <$> keys) in *.
      rewrite not_elem_of_cons in Hk. destruct Hk as [Hne Hk].
      rewrite decide_False by done. by rewrite IH.
    + apply elem_of_cons in Hin as [->|Hin]; [done|]. by rewrite IH.
Qed.

(** Summing over the groups of a table is summing over its rows. *)
Lemma sum_over_groups {A} (key : A -> str) (g : A -> nat)
    (keys : list str) (rows : list A) :
  NoDup keys ->
  (forall r, r ∈ rows -> key r ∈ keys) ->
  sum_list ((fun k => sum_list (g <$> filter (fun r => key r = k) rows))
              <$> keys)
  = sum_list (g <$> rows).
Proof.
  intros Hnodup. induction rows as [|r rows IH]; intros Hkeys.
  - clear. induction keys as [|k keys IH]; [done|].
    rewrite fmap_cons. simpl. exact IH.
  - rewrite fmap_cons. simpl.
    change (list_fmap A nat g rows) with (g <$> rows).
    rewrite <- IH by (intros r' Hr'; apply Hkeys; by right).
    rewrite <- (sum_indicator keys (key r) (g r) Hnodup)
      by (apply Hkeys; left).
    rewrite <- sum_list_fmap_add. f_equal.
    apply list_fmap_ext. intros _ k _. rewrite filter_cons.
    destruct (decide (key r = k)); [by rewrite fmap_cons|done].
Qed.

Section SummarizationMetrics.

Variable summarization_model : nat -> str -> result str.

Abbreviation summary_of := (summary_of summarization_model).
Abbreviation summary_row := (summary_row summarization_model).
Abbreviation summary_rows_from := (summary_rows_from summarization_model).
Abbreviation summary_successes_from :=
  (summary_successes_from summarization_model).

Lemma summary_successes_from_le i groups :
  (summary_successes_from i groups <= length groups)%nat.
Proof.
  revert i. induction groups as [|g rest IH]; intros i; simpl; [lia|].
  specialize (IH (S i)).
  destruct ((summary_of i (processed_text_of g.2)).2); lia.
Qed.

(** What the stage returns, with the metrics. *)
Lemma test_summarization_metrics input_csv_path output_csv_path fs rows :
  fs !! input_csv_path = Some (CorrectionCsv rows) ->
  exists avg,
    test_summarization summarization_model input_csv_path output_csv_path fs
    = (Ok (summary_rows_from 0 (speaker_texts rows),
           MSummarization
             {| sm_speakers_count := length (speaker_texts rows);
                sm_successful_summaries :=
                  summary_successes_from 0 (speaker_texts rows);
                sm_success_rate :=
                  if (0 <? length (speaker_texts rows))%nat
                  then true_div
                         (summary_successes_from 0 (speaker_texts rows))
                         (length (speaker_texts rows))
                  else 0%Q;
                sm_avg_compression_ratio := avg;
                sm_total_characters_processed :=
                  sum_list (s_original_text_length
                              <$> summary_rows_from 0 (speaker_texts rows))
             |}),
       <[output_csv_path :=
           SummaryCsv (summary_rows_from 0 (speaker_texts rows))]> fs).
Proof.
  intros Hcsv. unfold test_summarization.
  erewrite bind_Ok; [|unfold read_correction_csv; by rewrite Hcsv].
  erewrite bind_Ok; [|apply summarization_from_spec].
  eexists. reflexivity.
Qed.

Lemma length_speaker_texts (rows : list CorrectionRow) :
  length (speaker_texts rows) = length (speakers_of rows).
Proof. unfold speakers_of. by rewrite length_fmap. Qed.



End SummarizationMetrics.

(** ** The conversion of the metrics for JSON *)

Module PyValueFacts.

Import PyValue.

(** Induction on a value through the values of its dictionaries. *)
Lemma value_dict_ind (P : value -> Prop) :
  (forall v, (forall items, v <> PyDict items) -> P v) ->
  (forall items, Forall (fun kv => P kv.2) items -> P (PyDict items)) ->
  forall v, P v.
Proof.
  intros Hleaf Hdict. fix IH 1. intros v.
  destruct v as [| | | | | |items| | | |];
    try (by apply Hleaf).
  apply Hdict. induction items as [|[key x] items IHitems]; constructor.
  - apply IH.
  - exact IHitems.
Qed.

Lemma plain_tolist (a : ndarray) : plain (tolist a) = true.
Proof.
  revert a. fix IH 1. intros [items|items|items|rows]; simpl.
  - induction items; simpl; auto.
  - induction items; simpl; auto.
  - induction items; simpl; auto.
  - induction rows as [|a rows IHrows]; simpl; [done|].
    by rewrite IH, IHrows.
Qed.

Lemma convert_value_plain (v : value) :
  plain v = true -> convert_value v = v.
Proof. by destruct v. Qed.

Lemma convert_plain (v : value) :
  plain v = true -> convert_metrics_for_json v = v.
Proof.
  induction v as [v Hleaf|items IH] using value_dict_ind; intros Hplain.
  - destruct v; try done. by destruct (Hleaf items).
  - simpl in *. f_equal.
    induction IH as [|[key x] items Hx _ IHitems]; [done|].
    simpl in *. apply andb_true_iff in Hplain as [Hpx Hpitems].
    by rewrite Hx, IHitems.
Qed.

(** X8. Converting twice is converting once; the conversion of a
    dictionary is a dictionary with the same keys in the same order, at
    every depth of nested dictionaries; a value that holds no numpy value
    is returned as it is. *)
Theorem X8_convert_metrics_idempotent (v : value) :
  convert_metrics_for_json (convert_metrics_for_json v)
  = convert_metrics_for_json v
  /\ keys (convert_metrics_for_json v) = keys v
  /\ (plain v = true -> convert_metrics_for_json v = v).
Proof.
  split; [|split; [|apply convert_plain]].
  - induction v as [v Hleaf|items IH] using value_dict_ind.
    + destruct v; try done.
      * by destruct (Hleaf items).
      * simpl. apply convert_plain, plain_tolist.
    + simpl. f_equal.
      induction IH as [|[key x] items Hx _ IHitems]; [done|].
      simpl in *. by rewrite Hx, IHitems.
  - destruct v as [| | | | | |items| | | |a]; try done.
    + simpl. induction items as [|[key x] items IH]; [done|].
      simpl in *. by f_equal.
    + simpl. by destruct a.
Qed.

(** X9. The conversion is free of numpy values exactly when, below the
    dictionaries of the value, there is no [np.bool_] and no list that
    holds a numpy value: numpy integers, floats and arrays are converted
    at any depth of dictionaries, and lists are returned as they are. *)
Theorem X9_convert_metrics_plain (v : value) :
  plain (convert_metrics_for_json v) = convertible v.
Proof.
  induction v as [v Hleaf|items IH] using value_dict_ind.
  - destruct v; try done.
    + by destruct (Hleaf items).
    + simpl. apply plain_tolist.
  - simpl. induction IH as [|[key x] items Hx _ IHitems]; [done|].
    simpl in *. by rewrite Hx, IHitems.
Qed.

End PyValueFacts.

(** ** The tables of a complete run *)

Section CompleteRun.

Variable diarization_pipeline : AudioSegment -> list Turn.
Variable getitem : AudioSegment -> Z -> Z -> AudioSegment.
Variable export_model : nat -> AudioSegment -> export_result.
Variable asr_pipeline : nat -> AudioSegment -> result str.
Variable correction_model : nat -> str -> result str.
Variable summarization_model : nat -> str -> result str.


End CompleteRun.

(** ** The further properties on concrete inputs *)

Lemma X1_witness :
  ex_fs !! py "in.wav" = Some (AudioFile ex_audio)
  /\ exists df m fs',
       perform_diarization ex_diarization (py "in.wav") (py "d.csv") ex_fs
       = (Ok (df, m), fs')
       /\ match m with
          | MDiarization dm =>
              df <> []
              /\ dm_segments_count dm = length df
              /\ (1 <= dm_speakers_count dm <= dm_segments_count dm)%nat
              /\ Forall (fun r => (d_end_time r <= dm_audio_duration dm)%Q) df
              /\ (exists r, r ∈ df /\ dm_audio_duration dm = d_end_time r)
          | MDiarizationEmpty => df = []
          | _ => False
          end.
Proof.
  split; [vm_compute; reflexivity|].
  apply (X1_diarization_metrics ex_diarization (py "in.wav") (py "d.csv")
           ex_fs ex_audio).
  vm_compute; reflexivity.
Defined.

Lemma X2_witness :
  ex_fs_diarized !! py "in.wav" = Some (AudioFile ex_audio)
  /\ ex_fs_diarized !! py "d.csv" = Some (DiarizationCsv ex_diarization_table)
  /\ exists df m fs',
       perform_speech_recognition ex_getitem ex_export ex_asr
         (py "in.wav") (py "d.csv") (py "a.csv") ex_fs_diarized
       = (Ok (df, m), fs')
       /\ asr_source <$> df ⊆+ ex_diarization_table
       /\ match m with
          | MAsr am =>
              df <> []
              /\ am_segments_processed am = length ex_diarization_table
              /\ am_segments_with_speech am = length df
              /\ (am_speakers_count am
                  <= nunique (d_speaker <$> ex_diarization_table))%nat
          | MAsrEmpty segments_processed =>
              df = [] /\ segments_processed = length ex_diarization_table
          | _ => False
          end.
Proof.
  split; [vm_compute; reflexivity|].
  split; [vm_compute; reflexivity|].
  apply (X2_recognition_rows_from_diarization ex_getitem ex_export ex_asr
           (py "in.wav") (py "d.csv") (py "a.csv") ex_fs_diarized ex_audio
           ex_diarization_table);
    vm_compute; reflexivity.
Defined.

Lemma X3_witness :
  ex_fs_diarized !! py "in.wav" = Some (AudioFile ex_audio)
  /\ ex_fs_diarized !! py "d.csv" = Some (DiarizationCsv ex_diarization_table)
  /\ exists df m fs',
       perform_speech_recognition ex_getitem ex_export ex_asr
         (py "in.wav") (py "d.csv") (py "a.csv") ex_fs_diarized
       = (Ok (df, m), fs')
       /\ Forall (fun r => trimmed (a_text r) /\ (1 <= a_word_count r)%nat) df
       /\ forall am,
            m = MAsr am ->
            am_total_words am = sum_list (a_word_count <$> df)
            /\ (am_segments_with_speech am <= am_total_words am)%nat.
Proof.
  split; [vm_compute; reflexivity|].
  split; [vm_compute; reflexivity|].
  apply (X3_recognition_texts_trimmed ex_getitem ex_export ex_asr
           (py "in.wav") (py "d.csv") (py "a.csv") ex_fs_diarized ex_audio
           ex_diarization_table);
    vm_compute; reflexivity.
Defined.

Lemma X4_witness :
  (py "in.wav" ∉ driver_outputs (py "t"))
  /\ ~ is_temp_name (py "in.wav")
  /\ (run_complete_pipeline ex_diarization ex_getitem ex_export ex_asr
        failing_correction ex_summarization (py "in.wav") (py "t")
        ex_fs).2 !! py "in.wav"
     = ex_fs !! py "in.wav".
Proof.
  assert (py "in.wav" ∉ driver_outputs (py "t")) as Hout.
  { intros H. apply list_elem_of_In in H. vm_compute in H.
    repeat (destruct H as [H|H]; [discriminate H|]). exact H. }
  assert (~ is_temp_name (py "in.wav")) as Htemp.
  { intros (speaker & index & H). discriminate H. }
  split; [exact Hout|]. split; [exact Htemp|].
  apply (X4_driver_leaves_other_files ex_diarization ex_getitem ex_export
           ex_asr failing_correction ex_summarization (py "in.wav")
           (py "t") ex_fs (py "in.wav") Hout Htemp).
Defined.




